(** * calculate_probabilities.py: multinomial logit probabilities

    A shallow embedding of [calculate_probabilities]
    (src/Desktop/python_developer_test/calculate_probabilities.py, lines 5-52)
    and the properties of it that the specification states.

    The Python function runs on binary64 numbers ([np.float64]).  The
    embedding is written once over an interface of the arithmetic the function
    uses ([Scalar]) and instantiated twice: with Rocq's primitive binary64
    floats, which is the arithmetic the program runs on, and with the real
    numbers, which is the arithmetic the softmax formula is usually read in.

    What the embedding takes from Python and numpy: numbers are binary64
    (numpy converts the integers a utility function may return); numpy's
    floating-point errors are warnings, its default, so a division by zero or
    an overflow yields an infinity or a nan and raises nothing; a utility
    function is a function of its two arguments that returns a number or
    raises an exception derived from [Exception]. *)

From Stdlib Require Import ZArith Floats Reals Lra Lia.
From stdpp Require Import gmap strings list fin_maps pretty.


(** ** Python exceptions and the effects of the function *)

(** The exception classes that occur; all of them derive from [Exception],
    which is what the handler at line 50 catches. *)
Inductive exn_class :=
  | ValueError | StopIteration | AssertionError | KeyError | IndexError
  | OtherError (name : string).

(** An exception with [str(e)], the text that line 51 prints. *)
Record exn := Exn { exn_cls : exn_class; exn_str : string }.

Inductive result (A : Type) :=
  | Ok (a : A)
  | Raise (e : exn).
Arguments Ok {A} a.
Arguments Raise {A} e.

(** What a call can do besides returning: print lines, and invoke the
    caller's utility functions.  [invocations] records every invocation as
    (observation index, alternative index), oldest first. *)
Record world := World {
  stdout : list string;
  invocations : list (nat * nat)
}.

Definition world0 : world := World [] [].

Definition M (A : Type) : Type := world → world * result A.

Definition ret {A} (a : A) : M A := λ w, (w, Ok a).

Definition raise {A} (e : exn) : M A := λ w, (w, Raise e).

Definition bind {A B} (c : M A) (k : A → M B) : M B :=
  λ w, match c w with
       | (w', Ok a) => k a w'
       | (w', Raise e) => (w', Raise e)
       end.

Definition lift {A} (r : result A) : M A := λ w, (w, r).

Notation "'do' x <- c ; k" := (bind c (λ x, k))
  (at level 10, x pattern, c at level 100, k at level 200,
   format "'[v' 'do'  x  <-  c ; '/' k ']'").

(** [print(line)] *)
Definition print (line : string) : M unit :=
  λ w, (World (stdout w ++ [line]) (invocations w), Ok tt).

(** [for x in xs: body], with the variables the body assigns threaded as [s]. *)
Fixpoint for_ {A S} (xs : list A) (body : A → S → M S) (s : S) : M S :=
  match xs with
  | [] => ret s
  | x :: xs' => do s' <- body x s; for_ xs' body s'
  end.

(** [[f(x) for x in xs]] *)
Fixpoint list_comp {A B} (f : A → M B) (xs : list A) : M (list B) :=
  match xs with
  | [] => ret []
  | x :: xs' => do y <- f x; do ys <- list_comp f xs'; ret (y :: ys)
  end.

(** [enumerate(xs)], counting from [k]. *)
Fixpoint enumerate_from {A} (k : nat) (xs : list A) : list (nat * A) :=
  match xs with
  | [] => []
  | x :: xs' => (k, x) :: enumerate_from (S k) xs'
  end.

Definition enumerate {A} (xs : list A) : list (nat * A) := enumerate_from 0 xs.

(** ** The arithmetic *)

(** The operations on numbers that lines 38-46 use. *)
Class Scalar (F : Type) := {
  f_zero : F;                 (* the [0] that [sum] starts from *)
  f_one : F;                  (* the [1] of line 46 *)
  f_tol : F;                  (* the [1e-6] of line 46 *)
  f_add : F → F → F;
  f_sub : F → F → F;
  f_div : F → F → F;
  f_abs : F → F;
  f_ltb : F → F → bool;
  np_exp : F → F
}.

(** binary64, with numpy's [exp] as a parameter: numpy is not part of the
    repository.  Division is numpy's: dividing by zero gives an infinity or
    a nan (and a warning), never an exception. *)
Definition binary64 (exp64 : float → float) : Scalar float := {|
  f_zero := 0%float;
  f_one := 1%float;
  f_tol := 0x1.0c6f7a0b5ed8dp-20%float;
  f_add := PrimFloat.add;
  f_sub := PrimFloat.sub;
  f_div := PrimFloat.div;
  f_abs := PrimFloat.abs;
  f_ltb := PrimFloat.ltb;
  np_exp := exp64
|}.

(** Exact arithmetic on the reals. *)
Definition exact : Scalar R := {|
  f_zero := 0%R;
  f_one := 1%R;
  f_tol := (1 / 1000000)%R;
  f_add := Rplus;
  f_sub := Rminus;
  f_div := Rdiv;
  f_abs := Rabs;
  f_ltb := λ x y, if Rlt_dec x y then true else false;
  np_exp := exp
|}.

(** ** calculate_probabilities *)

Section calculate_probabilities.
Context {F : Type} `{Scalar F}.

(** [parameters] and a single observation [data_point] are dicts of numbers,
    [gmap string F].  [data] is a dict of lists; Python dicts keep insertion
    order, and line 21 and the loop of line 22 depend on it, so it is the list
    of its items. *)
Definition observations : Type := list (string * list F).

(** A utility function: given [parameters] and [data_point] it returns a
    number or raises. *)
Definition utility : Type := gmap string F → gmap string F → result F.

(** [f'{prefix}{i+1}'] *)
Definition key (prefix : string) (i : nat) : string := prefix +:+ pretty (i + 1).

(** [values[i]] *)
Definition index {A} (values : list A) (i : nat) : result A :=
  match values !! i with
  | Some v => Ok v
  | None => Raise (Exn IndexError "list index out of range")
  end.

(** [d[k]] *)
Definition getitem {A} (d : gmap string A) (k : string) : result A :=
  match d !! k with
  | Some v => Ok v
  | None => Raise (Exn KeyError ("'" +:+ k +:+ "'"))
  end.

(** [l.append(v)] where [l] is the list [d[k]]: afterwards the dict holds
    the longer list under [k].  (Every list in these dicts is an object of
    its own, created by line 27 or 28, so no other entry changes.) *)
Definition appended (d : gmap string (list F)) (k : string) (l : list F) (v : F)
    : gmap string (list F) :=
  <[k := l ++ [v]]> d.

(** [sum(xs)]: Python adds from the left, starting from 0. *)
Definition py_sum (xs : list F) : F := foldl f_add f_zero xs.

(** Line 21: [len(next(iter(data.values())))] *)
Definition first_length (data : observations) : result nat :=
  match data with
  | [] => Raise (Exn StopIteration "")
  | (_, values) :: _ => Ok (length values)
  end.

Definition mismatch_message (k : string) (expected got : nat) : string :=
  "Data length mismatch for variable '" +:+ k +:+ "'. Expected "
    +:+ pretty expected +:+ ", got " +:+ pretty got +:+ ".".

(** Lines 22-24 *)
Definition check_lengths (n_points : nat) (data : observations) : M unit :=
  for_ data (λ '(k, values) _,
    if decide (length values ≠ n_points)
    then raise (Exn ValueError (mismatch_message k n_points (length values)))
    else ret tt) tt.

(** Lines 27 and 28: [{f'{prefix}{i+1}': [] for i in range(m)}] *)
Definition empty_lists (prefix : string) (m : nat) : gmap string (list F) :=
  foldl (λ d i, <[key prefix i := []]> d) ∅ (seq 0 m).

(** Line 32: [{key: values[i] for key, values in data.items()}] *)
Definition data_point_at (data : observations) (i : nat) : result (gmap string F) :=
  foldl (λ r '(k, values),
           match r with
           | Ok d => match index values i with
                     | Ok v => Ok (<[k := v]> d)
                     | Raise e => Raise e
                     end
           | Raise e => Raise e
           end) (Ok ∅) data.

(** The call [utility_func(parameters, data_point)] of line 34, for
    observation [i] and alternative [idx]. *)
Definition invoke (i idx : nat) (u : utility) (parameters data_point : gmap string F)
    : M F :=
  λ w, (World (stdout w) (invocations w ++ [(i, idx)]), u parameters data_point).

(** Lines 31-34 *)
Definition evaluate_utilities (parameters : gmap string F) (data : observations)
    (utilities : list utility) (n_points : nat)
    (utility_values : gmap string (list F)) : M (gmap string (list F)) :=
  for_ (seq 0 n_points) (λ i utility_values,
    do data_point <- lift (data_point_at data i);
    for_ (enumerate utilities) (λ '(idx, utility_func) utility_values,
      do l <- lift (getitem utility_values (key "V" idx));
      do v <- invoke i idx utility_func parameters data_point;
      ret (appended utility_values (key "V" idx) l v)) utility_values)
    utility_values.

(** Lines 37-41 *)
Definition compute_probabilities (m n_points : nat)
    (utility_values probabilities : gmap string (list F)) : M (gmap string (list F)) :=
  for_ (seq 0 n_points) (λ i probabilities,
    do exp_values <- list_comp (λ j,
        do l <- lift (getitem utility_values (key "V" j));
        do v <- lift (index l i);
        ret (np_exp v)) (seq 0 m);
    let sum_exp := py_sum exp_values in
    for_ (enumerate exp_values) (λ '(idx, exp_value) probabilities,
      do l <- lift (getitem probabilities (key "P" idx));
      ret (appended probabilities (key "P" idx) l (f_div exp_value sum_exp)))
      probabilities)
    probabilities.

Definition assert_message (i : nat) : string :=
  "Probabilities do not sum to 1 for data point " +:+ pretty i +:+ ".".

(** The test of line 46. *)
Definition sums_to_one (total : F) : bool :=
  f_ltb (f_abs (f_sub total f_one)) f_tol.

(** Lines 44-46 *)
Definition validate_probabilities (m n_points : nat)
    (probabilities : gmap string (list F)) : M unit :=
  for_ (seq 0 n_points) (λ i _,
    do ps <- list_comp (λ j,
        do l <- lift (getitem probabilities (key "P" j));
        lift (index l i)) (seq 0 m);
    let total := py_sum ps in
    if sums_to_one total then ret tt
    else raise (Exn AssertionError (assert_message i))) tt.

(** The body of the [try], lines 20-48. *)
Definition try_block (parameters : gmap string F) (data : observations)
    (utilities : list utility) : M (gmap string (list F)) :=
  do n_points <- lift (first_length data);
  do _ <- check_lengths n_points data;
  let m := length utilities in
  let utility_values := empty_lists "V" m in
  let probabilities := empty_lists "P" m in
  do utility_values <- evaluate_utilities parameters data utilities n_points utility_values;
  do probabilities <- compute_probabilities m n_points utility_values probabilities;
  do _ <- validate_probabilities m n_points probabilities;
  ret probabilities.

(** Lines 19-52: the table, or [None] after printing the exception. *)
Definition calculate_probabilities (parameters : gmap string F) (data : observations)
    (utilities : list utility) : world → world * option (gmap string (list F)) :=
  λ w, match try_block parameters data utilities w with
       | (w', Ok probabilities) => (w', Some probabilities)
       | (w', Raise e) => ((print ("Error: " +:+ exn_str e) w').1, None)
       end.

(** *** The computation read row by row

    The loops above fill dicts of columns.  These functions compute the
    same numbers one observation (a row) at a time; the lemmas below show
    that the loops compute what they say. *)

Fixpoint result_map {A B} (f : A → result B) (xs : list A) : result (list B) :=
  match xs with
  | [] => Ok []
  | x :: xs' =>
      match f x with
      | Ok y => match result_map f xs' with
                | Ok ys => Ok (y :: ys)
                | Raise e => Raise e
                end
      | Raise e => Raise e
      end
  end.

(** The utilities of one observation, in the order line 33 invokes them. *)
Definition eval_row (parameters : gmap string F) (utilities : list utility)
    (data_point : gmap string F) : result (list F) :=
  result_map (λ u : utility, u parameters data_point) utilities.

Definition eval_at (parameters : gmap string F) (data : observations)
    (utilities : list utility) (i : nat) : result (list F) :=
  match data_point_at data i with
  | Ok data_point => eval_row parameters utilities data_point
  | Raise e => Raise e
  end.

(** The utilities of observations [0 .. n_points - 1]. *)
Definition eval_all (parameters : gmap string F) (data : observations)
    (utilities : list utility) (n_points : nat) : result (list (list F)) :=
  result_map (eval_at parameters data utilities) (seq 0 n_points).

(** Lines 38-41 for one observation. *)
Definition softmax_row (vs : list F) : list F :=
  let exp_values := np_exp <$> vs in
  let sum_exp := py_sum exp_values in
  (λ exp_value, f_div exp_value sum_exp) <$> exp_values.

(** Lines 44-46 on rows, the first row having index [i]. *)
Fixpoint check_rows (i : nat) (rows : list (list F)) : result unit :=
  match rows with
  | [] => Ok tt
  | row :: rows' =>
      if sums_to_one (py_sum row) then check_rows (S i) rows'
      else Raise (Exn AssertionError (assert_message i))
  end.

(** The rows of the table that lines 31-46 produce for [n_points]
    observations, or the exception they raise. *)
Definition probability_rows (parameters : gmap string F) (data : observations)
    (utilities : list utility) (n_points : nat) : result (list (list F)) :=
  match eval_all parameters data utilities n_points with
  | Ok rows =>
      let probabilities := softmax_row <$> rows in
      match check_rows 0 probabilities with
      | Ok _ => Ok probabilities
      | Raise e => Raise e
      end
  | Raise e => Raise e
  end.

(** The dict [d] holds, under the keys [prefix1 .. prefixm], the columns of
    the matrix [rows], and nothing else. *)
Definition holds_columns (prefix : string) (m : nat) (rows : list (list F))
    (d : gmap string (list F)) : Prop :=
  (∀ k, is_Some (d !! k) → ∃ j, j < m ∧ k = key prefix j) ∧
  (∀ j, j < m → ∃ col, d !! key prefix j = Some col ∧ length col = length rows ∧
      ∀ i row, rows !! i = Some row → col !! i = row !! j).

(** The same while row number [length rows] is being appended: the columns
    of the alternatives below [length done] have their entry of that row
    already, the others not yet. *)
Definition holds_partial (prefix : string) (m : nat) (rows : list (list F))
    (done : list F) (d : gmap string (list F)) : Prop :=
  (∀ k, is_Some (d !! k) → ∃ j, j < m ∧ k = key prefix j) ∧
  (∀ j, j < m → ∃ col, d !! key prefix j = Some col ∧
      (∀ i row, rows !! i = Some row → col !! i = row !! j) ∧
      if decide (j < length done)
      then length col = S (length rows) ∧ col !! length rows = done !! j
      else length col = length rows).

(** What a step of the function may do to the world when there are [n]
    observations and [m] alternatives: print nothing, and invoke utility
    functions at indices in range. *)
Definition extends (n m : nat) (w w' : world) : Prop :=
  stdout w' = stdout w ∧
  ∃ l, invocations w' = invocations w ++ l ∧ Forall (λ p, p.1 < n ∧ p.2 < m) l.

(** [probabilities[f'P{j+1}'][i]], for reading a returned table. *)
Definition prob (t : gmap string (list F)) (j i : nat) : option F :=
  t !! key "P" j ≫= (.!! i).

End calculate_probabilities.

(** ** A binary64 exponential to run the model with

    [exp_model] is the classical argument-reduction and rational-approximation
    algorithm of fdlibm's [e_exp.c], on primitive floats.  The theorems about
    the program are stated for an arbitrary [exp64]; [exp_model] serves to run
    the model on concrete inputs, at the arguments 0, 1, 1000 and -1000.
    There it gives 1, the binary64 number just above e, [+inf] and 0 (lemma
    [exp_model_values]); numpy gives the same except at 1, where it gives the
    binary64 number just below e, and the runs below come out the same with
    either (theorem [C5_scenario] covers both).  [exp_model] is not numpy's
    [exp] bit for bit: at other arguments too the two can differ by one unit
    in the last place, and nothing below relies on their agreement beyond
    the values at 0, 1000 and -1000. *)

Definition trunc_to_Z (x : float) : Z :=
  match Prim2SF x with
  | S754_finite s m e =>
      let a := match e with
               | Z0 => Zpos m
               | Zpos p => Z.shiftl (Zpos m) (Zpos p)
               | Zneg p => Z.shiftr (Zpos m) (Zpos p)
               end in
      if s then Z.opp a else a
  | _ => 0%Z
  end.

Definition float_of_Z (k : Z) : float :=
  let a := of_uint63 (Uint63Axioms.of_Z (Z.abs k)) in
  if (k <? 0)%Z then (- a)%float else a.

Definition exp_poly (r : float) : float :=
  (let t := r * r in
   r - t * (0x1.555555555553ep-3 + t * (-0x1.6c16c16bebd93p-9
     + t * (0x1.1566aaf25de2cp-14 + t * (-0x1.bbd41c5d26bf1p-20
     + t * 0x1.6376972bea4d0p-25)))))%float.

Definition exp_model (x : float) : float :=
  (if negb (x =? x) then nan
   else if 0x1.62e42fefa39efp+9 <? x then infinity
   else if x <? -0x1.74910d52d3051p+9 then 0
   else if abs x <=? 0x1.62e42fefa39efp-2 then
     if abs x <? 0x1p-28 then 1 + x
     else let c := exp_poly x in 1 - ((x * c) / (c - 2) - x)
   else
     let k := if abs x <? 0x1.0a2b23f3bab73p+0
              then (if x <? 0 then (-1)%Z else 1%Z)
              else trunc_to_Z (0x1.71547652b82fep+0 * x + (if x <? 0 then -0.5 else 0.5)) in
     let t := float_of_Z k in
     let hi := x - t * 0x1.62e42fee00000p-1 in
     let lo := t * 0x1.a39ef35793c76p-33 in
     let r := hi - lo in
     let c := exp_poly r in
     let y := 1 - ((lo - (r * c) / (2 - c)) - hi) in
     Z.ldexp y k)%float.

(** binary64 with [exp_model]. *)
Definition binary64_model : Scalar float := binary64 exp_model.

(** ** visualize_probabilities

    Lines 55-85.  matplotlib is not part of the repository.  Its calls are
    recorded in the order they are made, with their arguments, and whether a
    call returns or raises is left to a parameter, [backend], which may
    depend on the calls made before. *)

Inductive plt_call (F : Type) :=
  | Figure (figsize : nat * nat)
  | Plot (xs : list nat) (ys : list F) (label marker : string)
  | Title (text : string) (fontsize : nat)
  | Xlabel (text : string) (fontsize : nat)
  | Ylabel (text : string) (fontsize : nat)
  | Legend (fontsize : nat)
  | Grid (visible : bool)
  | Savefig (fname : string)
  | Show.
Arguments Figure {F} figsize.
Arguments Plot {F} xs ys label marker.
Arguments Title {F} text fontsize.
Arguments Xlabel {F} text fontsize.
Arguments Ylabel {F} text fontsize.
Arguments Legend {F} fontsize.
Arguments Grid {F} visible.
Arguments Savefig {F} fname.
Arguments Show {F}.

(** What the function leaves behind: the calls of matplotlib it made, a call
    that raised included, and the lines it printed. *)
Record screen (F : Type) := Screen {
  plt_calls : list (plt_call F);
  printed : list string
}.
Arguments Screen {F} plt_calls printed.
Arguments plt_calls {F} s.
Arguments printed {F} s.

Section visualize_probabilities.
Context {F : Type}.
Variable backend : list (plt_call F) → plt_call F → result unit.

Definition V (A : Type) : Type := screen F → screen F * result A.

Definition vret {A} (a : A) : V A := λ s, (s, Ok a).

Definition vbind {A B} (c : V A) (k : A → V B) : V B :=
  λ s, match c s with
       | (s', Ok a) => k a s'
       | (s', Raise e) => (s', Raise e)
       end.

Definition vlift {A} (r : result A) : V A := λ s, (s, r).

Notation "'run' x <- c ; k" := (vbind c (λ x, k))
  (at level 10, x pattern, c at level 100, k at level 200,
   format "'[v' 'run'  x  <-  c ; '/' k ']'").

(** A call of matplotlib. *)
Definition plt (c : plt_call F) : V unit :=
  λ s, (Screen (plt_calls s ++ [c]) (printed s), backend (plt_calls s) c).

Definition vprint (line : string) : V unit :=
  λ s, (Screen (plt_calls s) (printed s ++ [line]), Ok tt).

(** [probabilities[k]], where [probabilities] is a dict or [None], the two
    things that [calculate_probabilities] returns. *)
Definition subscript (probabilities : option (gmap string (list F))) (k : string)
    : result (list F) :=
  match probabilities with
  | Some d => getitem d k
  | None => Raise (Exn (OtherError "TypeError") "'NoneType' object is not subscriptable")
  end.

(** The body of the [try], lines 63-82. *)
Definition visualize_try (probabilities : option (gmap string (list F))) : V unit :=
  run p1 <- vlift (subscript probabilities "P1");
  let data_points := seq 0 (length p1) in
  run _ <- plt (Figure (10, 6));
  run p1 <- vlift (subscript probabilities "P1");
  run _ <- plt (Plot data_points p1 "P1" "o");
  run p2 <- vlift (subscript probabilities "P2");
  run _ <- plt (Plot data_points p2 "P2" "s");
  run p3 <- vlift (subscript probabilities "P3");
  run _ <- plt (Plot data_points p3 "P3" "^");
  run _ <- plt (Title "Probabilities for Each Alternative" 14);
  run _ <- plt (Xlabel "Data Point Index" 12);
  run _ <- plt (Ylabel "Probability" 12);
  run _ <- plt (Legend 12);
  run _ <- plt (Grid true);
  run _ <- plt (Savefig "probability_visualization.png");
  run _ <- plt Show;
  vprint "Visualization saved as 'probability_visualization.png'.".

(** Lines 62-85. *)
Definition visualize_probabilities (probabilities : option (gmap string (list F)))
    (s : screen F) : screen F :=
  match visualize_try probabilities s with
  | (s', Ok _) => s'
  | (s', Raise e) => (vprint ("Visualization Error: " +:+ exn_str e) s').1
  end.

(** The calls that the function makes when nothing raises. *)
Definition full_plot (p1 p2 p3 : list F) : list (plt_call F) :=
  let data_points := seq 0 (length p1) in
  [Figure (10, 6);
   Plot data_points p1 "P1" "o"; Plot data_points p2 "P2" "s";
   Plot data_points p3 "P3" "^";
   Title "Probabilities for Each Alternative" 14;
   Xlabel "Data Point Index" 12; Ylabel "Probability" 12;
   Legend 12; Grid true; Savefig "probability_visualization.png"; Show].

End visualize_probabilities.

(** The line that line 82 prints. *)
Definition saved_line : string :=
  "Visualization saved as 'probability_visualization.png'.".

(** A backend on which no call raises. *)
Definition obliging {F} : list (plt_call F) → plt_call F → result unit :=
  λ _ _, Ok tt.

(** A backend that cannot write the image file. *)
Definition read_only {F} : list (plt_call F) → plt_call F → result unit :=
  λ _ c, match c with
         | Savefig _ => Raise (Exn (OtherError "PermissionError") "[Errno 13] Permission denied")
         | _ => Ok tt
         end.

(** ** The order of the invocations *)

(** Observation by observation, and within an observation alternative by
    alternative: the order in which lines 31-34 invoke the utility functions
    when none of them raises. *)
Definition invocation_order (n m : nat) : list (nat * nat) :=
  i ← seq 0 n; (λ j, (i, j)) <$> seq 0 m.

(** A computation that leaves the world as it found it. *)
Definition silent {A} (c : M A) : Prop := ∀ w, (c w).1 = w.

(** ** Kinds of binary64 numbers *)

(** Neither a nan nor an infinity. *)
Definition finite (x : float) : bool :=
  match Prim2SF x with
  | S754_zero _ | S754_finite _ _ _ => true
  | _ => false
  end.

(** Finite and not a zero. *)
Definition finite_nonzero (x : float) : bool :=
  match Prim2SF x with
  | S754_finite _ _ _ => true
  | _ => false
  end.

(** ** Reading a float as a real number *)

(** The real number a finite float stands for (0 for the infinities and nan). *)
Definition float_to_R (x : float) : R :=
  match Prim2SF x with
  | S754_finite s m e =>
      let a := IZR (if s then Zneg m else Zpos m) in
      match e with
      | Zneg p => (a / IZR (Z.pow_pos 2 p))%R
      | _ => (a * IZR (2 ^ e))%R
      end
  | _ => 0%R
  end.

(** The two binary64 numbers next to e: e lies between them, nearer to the
    first. *)
Definition e_below : float := 0x1.5bf0a8b145769p+1%float.
Definition e_above : float := 0x1.5bf0a8b14576ap+1%float.

(** The partial sum up to [n] of the series of [exp (-1)], with its last term. *)
Fixpoint alt_partial (n : nat) : R * R :=
  match n with
  | 0 => (1, 1)%R
  | S k => let '(s, u) := alt_partial k in
           let u' := (- u / INR (S k))%R in
           ((s + u')%R, u')
  end.

(** ** Inputs of the examples *)

(** [lambda params, d: d[name]] *)
Definition variable_utility {F} (name : string) : gmap string F → gmap string F → result F :=
  λ _ data_point, getitem data_point name.

(** [lambda params, d: v] *)
Definition constant_utility {F} (v : F) : gmap string F → gmap string F → result F :=
  λ _ _, Ok v.

(** The mismatched observations of the specification's scenario. *)
Definition mismatched_data : list (string * list float) :=
  [("X1", [1; 2; 3]); ("X2", [1; 2])]%float.

Definition three_points : list (string * list float) := [("X1", [1; 2; 3])]%float.

Definition two_points : list (string * list float) := [("X1", [0; 1])]%float.

Definition one_point (x : float) : list (string * list float) := [("X1", [x])].

Definition one_point_exact : list (string * list R) := [("X1", [0%R])].

(** Two variables, no observation. *)
Definition no_points : list (string * list float) := [("X1", []); ("X2", [])].

(** A table of three alternatives and one observation. *)
Definition sample_table : gmap string (list float) :=
  {[ "P1" := [0.5]; "P2" := [0.25]; "P3" := [0.25] ]}%float.

Definition screen0 : screen float := Screen [] [].

Arguments observations F : clear implicits.
Arguments utility F : clear implicits.

(** * Properties *)

(** ** The exponential of the examples *)

Lemma exp_model_values :
  exp_model 0 = 1%float ∧ exp_model 1 = e_above ∧
  exp_model 1000 = infinity ∧ exp_model (-1000) = 0%float.
Proof. repeat split; vm_compute; reflexivity. Qed.

(** ** The monad *)

Lemma bind_Ok {A B} (c : M A) (k : A → M B) w w' b :
  bind c k w = (w', Ok b) → ∃ w1 a, c w = (w1, Ok a) ∧ k a w1 = (w', Ok b).
Proof.
  unfold bind. destruct (c w) as [w1 [a|e]]; [eauto | discriminate].
Qed.

Lemma bind_run_Ok {A B} (c : M A) (k : A → M B) w w1 a :
  c w = (w1, Ok a) → bind c k w = k a w1.
Proof. unfold bind. by intros ->. Qed.

Lemma bind_run_Raise {A B} (c : M A) (k : A → M B) w w1 e :
  c w = (w1, Raise e) → bind c k w = (w1, Raise e).
Proof. unfold bind. by intros ->. Qed.

Lemma bind_lift_Ok {A B} (r : result A) (k : A → M B) a w :
  r = Ok a → bind (lift r) k w = k a w.
Proof. by intros ->. Qed.

Lemma bind_lift_Raise {A B} (r : result A) (k : A → M B) e w :
  r = Raise e → bind (lift r) k w = (w, Raise e).
Proof. by intros ->. Qed.

(** ** Keys *)

Lemma key_inj prefix i j : key prefix i = key prefix j → i = j.
Proof.
  unfold key. intros Heq%(inj (String.app prefix))%(inj pretty). lia.
Qed.

Section validation.
Context {F : Type} `{Scalar F}.
Implicit Types (data : observations F) (parameters : gmap string F).
Implicit Types (utilities : list (utility F)).

(** ** Lines 21-24: the shape of the data *)

Lemma check_lengths_agree n data w :
  Forall (λ kv : string * list F, length kv.2 = n) data → check_lengths n data w = (w, Ok tt).
Proof.
  unfold check_lengths. induction 1 as [|[k vs] data Hvs _ IH]; [done|].
  simpl in *. unfold bind. destruct (decide (length vs ≠ n)); [done|]. apply IH.
Qed.

Lemma check_lengths_differ n pre k vs post w :
  Forall (λ kv : string * list F, length kv.2 = n) pre → length vs ≠ n →
  check_lengths n (pre ++ (k, vs) :: post) w
    = (w, Raise (Exn ValueError (mismatch_message k n (length vs)))).
Proof.
  unfold check_lengths. intros Hpre Hvs.
  induction Hpre as [|[k' vs'] pre Hvs' _ IH]; simpl in *; unfold bind.
  - by destruct (decide (length vs ≠ n)).
  - destruct (decide (length vs' ≠ n)); [done|]. apply IH.
Qed.

(** The first variable, in the order of the dict, whose length differs. *)
Lemma first_offender n data :
  Exists (λ kv : string * list F, length kv.2 ≠ n) data →
  ∃ pre k vs post, data = pre ++ (k, vs) :: post ∧
    Forall (λ kv : string * list F, length kv.2 = n) pre ∧ length vs ≠ n.
Proof.
  induction data as [|[k vs] data IH]; intros Hex; [by apply Exists_nil in Hex|].
  destruct (decide (length vs = n)) as [Heq|Hne].
  - apply Exists_cons in Hex as [Hhd|Htl]; [done|].
    destruct (IH Htl) as (pre & k' & vs' & post & -> & Hpre & Hvs').
    exists ((k, vs) :: pre), k', vs', post. split_and!; [done| |done].
    by constructor.
  - by exists [], k, vs, data.
Qed.

Lemma lengths_agree_or_differ n data :
  Forall (λ kv : string * list F, length kv.2 = n) data ∨ Exists (λ kv : string * list F, length kv.2 ≠ n) data.
Proof.
  destruct (decide (Forall (λ kv : string * list F, length kv.2 = n) data)) as [?|Hn];
    [by left|right].
  by apply not_Forall_Exists in Hn; [|apply _].
Qed.

End validation.

(** ** Dicts of columns *)

Section columns.
Context {F : Type} `{Scalar F}.
Implicit Types (d : gmap string (list F)) (rows : list (list F)).

Global Instance extends_preorder n m : PreOrder (extends n m).
Proof.
  split.
  - intros w. split; [done|]. exists []. by rewrite app_nil_r.
  - intros w1 w2 w3 [Ho1 (l1 & Hi1 & Hl1)] [Ho2 (l2 & Hi2 & Hl2)].
    split; [congruence|].
    exists (l1 ++ l2). rewrite Hi2, Hi1, <-(assoc_L app). split; [done|].
    by apply Forall_app.
Qed.

Lemma extends_no_alternatives n w w' : extends n 0 w w' → w' = w.
Proof.
  intros [Ho (l & Hi & Hl)]. destruct l as [|p l].
  - rewrite app_nil_r in Hi. destruct w, w'; simpl in *; congruence.
  - apply Forall_cons in Hl as [[_ ?] _]. lia.
Qed.

Lemma empty_lists_S prefix m :
  empty_lists (F:=F) prefix (S m) = <[key prefix m := []]> (empty_lists prefix m).
Proof. unfold empty_lists. by rewrite seq_S, foldl_snoc. Qed.

Lemma holds_columns_empty prefix m :
  holds_columns (F:=F) prefix m [] (empty_lists prefix m).
Proof.
  induction m as [|m [IHdom IHcol]].
  - split; [|lia]. intros k [? Hk]. unfold empty_lists in Hk. simpl in Hk.
    by rewrite lookup_empty in Hk.
  - rewrite empty_lists_S. split.
    + intros k [col Hk]. destruct (decide (key prefix m = k)) as [<-|Hne].
      * exists m. split; [lia|done].
      * rewrite lookup_insert_ne in Hk by done.
        destruct (IHdom k) as (j & ? & ->); [done|]. exists j. split; [lia|done].
    + intros j Hj. destruct (decide (j = m)) as [->|Hne].
      * exists []. rewrite lookup_insert_eq. split_and!; [done..|]. by intros [|?] ?.
      * rewrite lookup_insert_ne by (by intros ?%key_inj).
        apply IHcol. lia.
Qed.

Lemma holds_partial_start prefix m rows d :
  holds_columns prefix m rows d → holds_partial prefix m rows [] d.
Proof.
  intros [Hdom Hcol]. split; [done|]. intros j Hj.
  destruct (Hcol j Hj) as (col & Hd & Hlen & Hrows). exists col.
  split_and!; [done..|]. by case_decide; [simpl in *; lia|].
Qed.

Lemma holds_partial_finish prefix m rows row d :
  length row = m → holds_partial prefix m rows row d →
  holds_columns prefix m (rows ++ [row]) d.
Proof.
  intros Hrow [Hdom Hcol]. split; [done|]. intros j Hj.
  destruct (Hcol j Hj) as (col & Hd & Hrows & Hlast). exists col.
  rewrite decide_True in Hlast by lia. destruct Hlast as [Hlen Hlast].
  split_and!; [done|rewrite length_app; simpl; lia|].
  intros i r Hi. apply lookup_snoc_Some in Hi as [[? Hi]|[-> <-]]; [eauto|done].
Qed.

Lemma append_step prefix m rows done d :
  length done < m → holds_partial prefix m rows done d →
  ∃ l, d !! key prefix (length done) = Some l ∧
    ∀ v, holds_partial prefix m rows (done ++ [v])
           (appended d (key prefix (length done)) l v).
Proof.
  intros Hk [Hdom Hcol].
  destruct (Hcol _ Hk) as (col & Hd & Hrows & Hlen).
  rewrite decide_False in Hlen by lia.
  exists col. split; [done|]. intros v. unfold appended. split.
  - intros k [c Hc]. destruct (decide (key prefix (length done) = k)) as [<-|Hne]; [eauto|].
    rewrite lookup_insert_ne in Hc by done. eauto.
  - intros j Hj. rewrite length_app. simpl.
    destruct (decide (j = length done)) as [->|Hne].
    + exists (col ++ [v]). rewrite lookup_insert_eq. split_and!; [done| |].
      * intros i row Hi. rewrite lookup_app_l; [eauto|].
        apply lookup_lt_Some in Hi. lia.
      * rewrite decide_True by lia. rewrite length_app. simpl. split; [lia|].
        rewrite <-Hlen. by rewrite !list_lookup_middle.
    + rewrite lookup_insert_ne by (by intros ?%key_inj).
      destruct (Hcol j Hj) as (col' & Hd' & Hrows' & Hlen'). exists col'.
      split_and!; [done..|].
      destruct (decide (j < length done)).
      * rewrite decide_True by lia. rewrite lookup_app_l by done. done.
      * rewrite decide_False by lia. done.
Qed.

(** A loop that computes a number from each element and appends it to the
    column of the element's index (the inner loops of lines 33 and 40).  [Q]
    is what each step of the loop does to the world. *)
Lemma append_loop {A} (Q : relation world) `{!PreOrder Q} (g : A → result F)
    (body : nat * A → gmap string (list F) → M (gmap string (list F)))
    prefix m rows :
  (∀ idx x d l w, idx < m → d !! key prefix idx = Some l → ∃ w', Q w w' ∧
      body (idx, x) d w
        = (w', match g x with
               | Ok v => Ok (appended d (key prefix idx) l v)
               | Raise e => Raise e
               end)) →
  ∀ xs done d w,
    length done + length xs = m → holds_partial prefix m rows done d →
    ∃ w' r, for_ (enumerate_from (length done) xs) body d w = (w', r) ∧
      Q w w' ∧
      match result_map g xs with
      | Ok vs => ∃ d', r = Ok d' ∧ holds_partial prefix m rows (done ++ vs) d'
      | Raise e => r = Raise e
      end.
Proof.
  intros Hbody xs. induction xs as [|x xs IH]; intros done d w Hlen Hd; simpl.
  - exists w, (Ok d). split_and!; [done..|].
    exists d. by rewrite app_nil_r.
  - simpl in Hlen.
    destruct (append_step prefix m rows done d) as (l & Hl & Hd1); [lia|done|].
    destruct (Hbody (length done) x d l w) as (w1 & Hw1 & Hrun); [lia|done|].
    destruct (g x) as [v|e].
    + rewrite (bind_run_Ok _ _ _ _ _ Hrun).
      destruct (IH (done ++ [v]) (appended d (key prefix (length done)) l v) w1)
        as (w' & r & Hfor & Hw' & Hr).
      { rewrite length_app. simpl. lia. }
      { apply Hd1. }
      rewrite length_app in Hfor. simpl in Hfor.
      replace (length done + 1) with (S (length done)) in Hfor by lia.
      exists w', r. split_and!; [done|by etrans|].
      destruct (result_map g xs) as [vs|e]; [|done].
      by rewrite <-(assoc_L app) in Hr.
    + rewrite (bind_run_Raise _ _ _ _ _ Hrun). by exists w1, (Raise e).
Qed.

End columns.

(** ** The loops, row by row *)

Section loops.
Context {F : Type} `{Scalar F}.
Implicit Types (d : gmap string (list F)) (rows : list (list F)).
Implicit Types (data : observations F) (parameters : gmap string F).
Implicit Types (utilities : list (utility F)).

Lemma result_map_Ok {A B} (f : A → result B) xs ys :
  result_map f xs = Ok ys → Forall2 (λ x y, f x = Ok y) xs ys.
Proof.
  revert ys. induction xs as [|x xs IH]; intros ys; simpl.
  - intros [= <-]. constructor.
  - destruct (f x) as [y|] eqn:Hx; [|done].
    destruct (result_map f xs) as [ys'|]; [|done].
    intros [= <-]. constructor; [done|]. by apply IH.
Qed.

Lemma result_map_Raise {A B} (f : A → result B) xs e :
  result_map f xs = Raise e → ∃ x, x ∈ xs ∧ f x = Raise e.
Proof.
  induction xs as [|x xs IH]; simpl; [done|].
  destruct (f x) as [y|e'] eqn:Hx.
  - destruct (result_map f xs) as [ys'|e'']; [done|].
    intros [= ->]. destruct IH as (x' & ? & ?); [done|].
    exists x'. split; [by right|done].
  - intros [= ->]. exists x. split; [by left|done].
Qed.

Lemma result_map_total {A B} (f : A → result B) (g : A → B) xs :
  (∀ x, f x = Ok (g x)) → result_map f xs = Ok (g <$> xs).
Proof.
  intros Hf. induction xs as [|x xs IH]; simpl; [done|]. by rewrite Hf, IH.
Qed.

Lemma result_map_length {A B} (f : A → result B) xs ys :
  result_map f xs = Ok ys → length ys = length xs.
Proof. intros Hf%result_map_Ok. symmetry. by eapply Forall2_length. Qed.

Lemma list_comp_Ok {A B} (f : A → M B) xs ys w :
  Forall2 (λ x y, ∀ w, f x w = (w, Ok y)) xs ys → list_comp f xs w = (w, Ok ys).
Proof.
  induction 1 as [|x y xs ys Hx _ IH]; simpl; [done|].
  unfold bind. by rewrite Hx, IH.
Qed.

(** Line 38 and line 45 read row [i] out of the columns. *)
Lemma read_row {B} (g : F → B) prefix m rows d i row w :
  holds_columns prefix m rows d → rows !! i = Some row → length row = m →
  list_comp (λ j, do l <- lift (getitem d (key prefix j));
                  do v <- lift (index l i); ret (g v)) (seq 0 m) w
    = (w, Ok (g <$> row)).
Proof.
  intros [_ Hcol] Hi Hrow. apply list_comp_Ok.
  apply Forall2_same_length_lookup_2.
  { by rewrite length_seq, length_fmap. }
  intros j j' y [-> Hj]%lookup_seq Hy w'. simpl in *.
  destruct (Hcol j Hj) as (col & Hd & _ & Hrows).
  rewrite list_lookup_fmap in Hy.
  destruct (row !! j) as [v|] eqn:Hv; [|done]. injection Hy as <-.
  unfold getitem, index, bind, lift, ret. rewrite Hd. simpl.
  by rewrite (Hrows i row Hi), Hv.
Qed.

Lemma read_row_plain prefix m rows d i row w :
  holds_columns prefix m rows d → rows !! i = Some row → length row = m →
  list_comp (λ j, do l <- lift (getitem d (key prefix j)); lift (index l i))
      (seq 0 m) w
    = (w, Ok row).
Proof.
  intros [_ Hcol] Hi Hrow. apply list_comp_Ok.
  apply Forall2_same_length_lookup_2.
  { by rewrite length_seq. }
  intros j j' y [-> Hj]%lookup_seq Hy w'. simpl in *.
  destruct (Hcol j Hj) as (col & Hd & _ & Hrows).
  unfold getitem, index, bind, lift. rewrite Hd. simpl.
  by rewrite (Hrows i row Hi), Hy.
Qed.

(** ** Lines 31-34 *)

Lemma data_point_at_agree n data i :
  Forall (λ kv : string * list F, length kv.2 = n) data → i < n →
  ∃ data_point, data_point_at data i = Ok data_point.
Proof.
  intros Hdata Hi. unfold data_point_at. generalize (∅ : gmap string F).
  induction Hdata as [|[k vs] data Hvs _ IH]; intros d0; simpl; [eauto|].
  unfold index. simpl in Hvs. destruct (lookup_lt_is_Some_2 vs i) as [v ->]; [lia|].
  apply IH.
Qed.

Lemma evaluate_row parameters utilities data_point n m i rows d w :
  i < n → length utilities = m → holds_columns "V" m rows d →
  ∃ w' r,
    for_ (enumerate utilities) (λ '(idx, utility_func) utility_values,
        do l <- lift (getitem utility_values (key "V" idx));
        do v <- invoke i idx utility_func parameters data_point;
        ret (appended utility_values (key "V" idx) l v)) d w = (w', r) ∧
    extends n m w w' ∧
    match eval_row parameters utilities data_point with
    | Ok row => ∃ d', r = Ok d' ∧ holds_columns "V" m (rows ++ [row]) d'
    | Raise e => r = Raise e
    end.
Proof.
  intros Hi Hm Hd.
  destruct (append_loop (extends n m) (λ u : utility F, u parameters data_point)
    (λ '(idx, utility_func) utility_values,
        do l <- lift (getitem utility_values (key "V" idx));
        do v <- invoke i idx utility_func parameters data_point;
        ret (appended utility_values (key "V" idx) l v))
    "V" m rows) with (xs := utilities) (done := @nil F) (d := d) (w := w)
    as (w' & r & Hrun & Hw' & Hr).
  - intros idx u d0 l w0 Hidx Hl.
    exists (World (stdout w0) (invocations w0 ++ [(i, idx)])). split.
    + split; [done|]. exists [(i, idx)]. split; [done|]. by repeat constructor.
    + unfold bind, invoke, lift, getitem. rewrite Hl.
      by destruct (u parameters data_point).
  - done.
  - by apply holds_partial_start.
  - exists w', r. split_and!; [done..|]. unfold eval_row.
    destruct (result_map _ utilities) as [row|e] eqn:Hrow; [|done].
    destruct Hr as (d' & -> & Hd'). exists d'. split; [done|].
    apply holds_partial_finish; [|done].
    apply result_map_length in Hrow. lia.
Qed.

Lemma evaluate_utilities_from parameters data utilities n m len :
  length utilities = m →
  ∀ k rows d w, k + len ≤ n → holds_columns "V" m rows d →
  ∃ w' r,
    for_ (seq k len) (λ i utility_values,
      do data_point <- lift (data_point_at data i);
      for_ (enumerate utilities) (λ '(idx, utility_func) utility_values,
        do l <- lift (getitem utility_values (key "V" idx));
        do v <- invoke i idx utility_func parameters data_point;
        ret (appended utility_values (key "V" idx) l v)) utility_values) d w
      = (w', r) ∧
    extends n m w w' ∧
    match result_map (eval_at parameters data utilities) (seq k len) with
    | Ok new => ∃ d', r = Ok d' ∧ holds_columns "V" m (rows ++ new) d'
    | Raise e => r = Raise e
    end.
Proof.
  intros Hm. induction len as [|len IH]; intros k rows d w Hk Hd; simpl.
  - exists w, (Ok d). split_and!; [done|reflexivity|].
    exists d. by rewrite app_nil_r.
  - unfold eval_at at 1. unfold bind at 1.
    destruct (data_point_at data k) as [data_point|e] eqn:Hdp.
    + rewrite (bind_lift_Ok _ _ data_point) by done. cbv beta.
      destruct (evaluate_row parameters utilities data_point n m k rows d w)
        as (w1 & r1 & Hrow & Hw1 & Hr1); [lia|done..|].
      rewrite Hrow. destruct (eval_row parameters utilities data_point) as [row|e].
      * destruct Hr1 as (d1 & -> & Hd1).
        destruct (IH (S k) (rows ++ [row]) d1 w1) as (w' & r & Hrun & Hw' & Hr);
          [lia|done|].
        exists w', r. split_and!; [done|by etrans|].
        destruct (result_map _ (seq (S k) len)) as [new|e]; [|done].
        by rewrite <-(assoc_L app) in Hr.
      * subst r1. by exists w1, (Raise e).
    + rewrite (bind_lift_Raise _ _ e) by done. exists w, (Raise e).
      split_and!; [done|reflexivity|done].
Qed.

(** ** Lines 37-41 *)

Lemma softmax_row_length (vs : list F) : length (softmax_row vs) = length vs.
Proof. unfold softmax_row. by rewrite !length_fmap. Qed.

Lemma compute_row m exp_values sum_exp rows d w :
  length exp_values = m → holds_columns "P" m rows d →
  ∃ d',
    for_ (enumerate exp_values) (λ '(idx, exp_value) probabilities,
        do l <- lift (getitem probabilities (key "P" idx));
        ret (appended probabilities (key "P" idx) l (f_div exp_value sum_exp))) d w
      = (w, Ok d') ∧
    holds_columns "P" m (rows ++ [(λ exp_value, f_div exp_value sum_exp) <$> exp_values]) d'.
Proof.
  intros Hm Hd.
  destruct (append_loop eq (λ exp_value : F, Ok (f_div exp_value sum_exp))
    (λ '(idx, exp_value) probabilities,
        do l <- lift (getitem probabilities (key "P" idx));
        ret (appended probabilities (key "P" idx) l (f_div exp_value sum_exp)))
    "P" m rows) with (xs := exp_values) (done := @nil F) (d := d) (w := w)
    as (w' & r & Hrun & <- & Hr).
  - intros idx x d0 l w0 _ Hl. exists w0. split; [done|].
    unfold bind, lift, getitem. by rewrite Hl.
  - done.
  - by apply holds_partial_start.
  - rewrite (result_map_total _ (λ exp_value, f_div exp_value sum_exp)) in Hr by done.
    destruct Hr as (d' & -> & Hd'). exists d'. split; [done|].
    apply holds_partial_finish; [|done]. by rewrite length_fmap.
Qed.

Lemma compute_probabilities_from m rows utility_values len :
  holds_columns "V" m rows utility_values →
  Forall (λ row, length row = m) rows →
  ∀ k done d w, k + len ≤ length rows → holds_columns "P" m done d →
  ∃ d',
    for_ (seq k len) (λ i probabilities,
      do exp_values <- list_comp (λ j,
          do l <- lift (getitem utility_values (key "V" j));
          do v <- lift (index l i);
          ret (np_exp v)) (seq 0 m);
      let sum_exp := py_sum exp_values in
      for_ (enumerate exp_values) (λ '(idx, exp_value) probabilities,
        do l <- lift (getitem probabilities (key "P" idx));
        ret (appended probabilities (key "P" idx) l (f_div exp_value sum_exp)))
        probabilities) d w = (w, Ok d') ∧
    holds_columns "P" m (done ++ (softmax_row <$> take len (drop k rows))) d'.
Proof.
  intros Huv Hrows. induction len as [|len IH]; intros k done d w Hk Hd.
  - exists d. by rewrite app_nil_r.
  - destruct (lookup_lt_is_Some_2 rows k) as [row Hrow]; [lia|].
    assert (length row = m) as Hm by by eapply Forall_lookup_1 in Hrows.
    rewrite (drop_S _ _ _ Hrow). cbn [for_ seq take fmap list_fmap].
    unfold bind at 1.
    rewrite (bind_run_Ok _ _ _ _ _ (read_row np_exp "V" m rows _ k row w Huv Hrow Hm)).
    destruct (compute_row m (np_exp <$> row) (py_sum (np_exp <$> row)) done d w)
      as (d1 & Hrun & Hd1); [by rewrite length_fmap|done|].
    rewrite Hrun.
    destruct (IH (S k) (done ++ [softmax_row row]) d1 w) as (d' & Hfor & Hd');
      [lia|done|].
    exists d'. split; [exact Hfor|]. by rewrite <-(assoc_L app) in Hd'.
Qed.

(** ** Lines 44-46 *)

Lemma validate_probabilities_from m rows probabilities len :
  holds_columns "P" m rows probabilities →
  Forall (λ row, length row = m) rows →
  ∀ k w, k + len ≤ length rows →
    for_ (seq k len) (λ i _,
      do ps <- list_comp (λ j,
          do l <- lift (getitem probabilities (key "P" j));
          lift (index l i)) (seq 0 m);
      let total := py_sum ps in
      if sums_to_one total then ret tt
      else raise (Exn AssertionError (assert_message i))) tt w
    = (w, check_rows k (take len (drop k rows))).
Proof.
  intros Hd Hrows. induction len as [|len IH]; intros k w Hk; [done|].
  destruct (lookup_lt_is_Some_2 rows k) as [row Hrow]; [lia|].
  assert (length row = m) as Hm by by eapply Forall_lookup_1 in Hrows.
  rewrite (drop_S _ _ _ Hrow). cbn [for_ seq take check_rows].
  unfold bind at 1.
  rewrite (bind_run_Ok _ _ _ _ _ (read_row_plain "P" m rows _ k row w Hd Hrow Hm)).
  destruct (sums_to_one (py_sum row)); [|done].
  apply IH. lia.
Qed.

(** ** Lines 20-48 *)

Lemma eval_all_shape parameters data utilities n rows :
  eval_all parameters data utilities n = Ok rows →
  length rows = n ∧ Forall (λ row, length row = length utilities) rows.
Proof.
  unfold eval_all. intros Hrows. split.
  - apply result_map_length in Hrows. by rewrite length_seq in Hrows.
  - apply result_map_Ok in Hrows. apply Forall_forall. intros row Hin.
    apply list_elem_of_lookup_1 in Hin as [pos Hpos].
    eapply Forall2_lookup_r in Hrows as (i & _ & Hi); [|done].
    unfold eval_at in Hi. destruct (data_point_at data i); [|done].
    by apply result_map_length in Hi.
Qed.


Lemma evaluate_utilities_rows parameters data utilities n w :
  ∃ w' r,
    evaluate_utilities parameters data utilities n
      (empty_lists "V" (length utilities)) w = (w', r) ∧
    extends n (length utilities) w w' ∧
    match eval_all parameters data utilities n with
    | Ok rows => ∃ d, r = Ok d ∧ holds_columns "V" (length utilities) rows d
    | Raise e => r = Raise e
    end.
Proof.
  apply (evaluate_utilities_from parameters data utilities n (length utilities) n
    eq_refl 0 []); [lia|apply holds_columns_empty].
Qed.

Lemma compute_probabilities_rows m rows utility_values w :
  holds_columns "V" m rows utility_values →
  Forall (λ row, length row = m) rows →
  ∃ d, compute_probabilities m (length rows) utility_values (empty_lists "P" m) w
         = (w, Ok d) ∧
    holds_columns "P" m (softmax_row <$> rows) d.
Proof.
  intros Huv Hrows.
  destruct (compute_probabilities_from m rows utility_values (length rows) Huv Hrows
    0 [] (empty_lists "P" m) w) as (d & Hrun & Hd); [lia|apply holds_columns_empty|].
  rewrite drop_0, firstn_all in Hd. by exists d.
Qed.

Lemma validate_probabilities_rows m rows probabilities w :
  holds_columns "P" m rows probabilities →
  Forall (λ row, length row = m) rows →
  validate_probabilities m (length rows) probabilities w = (w, check_rows 0 rows).
Proof.
  intros Hd Hrows. unfold validate_probabilities.
  rewrite (validate_probabilities_from m rows probabilities (length rows) Hd Hrows)
    by lia.
  by rewrite drop_0, firstn_all.
Qed.

(** The loops compute [probability_rows], column by column. *)
Theorem try_block_rows parameters data utilities n w :
  first_length data = Ok n →
  Forall (λ kv : string * list F, length kv.2 = n) data →
  ∃ w' r, try_block parameters data utilities w = (w', r) ∧
    extends n (length utilities) w w' ∧
    match probability_rows parameters data utilities n with
    | Ok rows => ∃ t, r = Ok t ∧ holds_columns "P" (length utilities) rows t
    | Raise e => r = Raise e
    end.
Proof.
  intros Hn Hdata. unfold try_block, probability_rows.
  rewrite (bind_lift_Ok _ _ n) by done.
  rewrite (bind_run_Ok _ _ _ _ _ (check_lengths_agree n data w Hdata)). cbv zeta.
  destruct (evaluate_utilities_rows parameters data utilities n w)
    as (w' & r1 & Hrun1 & Hw' & Hr1).
  unfold bind at 1. rewrite Hrun1.
  destruct (eval_all parameters data utilities n) as [rows|e] eqn:Hrows.
  - destruct Hr1 as (uv & -> & Huv).
    apply eval_all_shape in Hrows as [<- Hshape].
    destruct (compute_probabilities_rows (length utilities) rows uv w' Huv Hshape)
      as (pr & Hrun2 & Hpr).
    unfold bind at 1. rewrite Hrun2.
    assert (Forall (λ row, length row = length utilities) (softmax_row <$> rows))
      as Hshape'.
    { apply Forall_fmap. eapply Forall_impl; [done|].
      intros row Hrow. simpl. by rewrite softmax_row_length. }
    pose proof (validate_probabilities_rows _ _ pr w' Hpr Hshape') as Hrun3.
    rewrite length_fmap in Hrun3. unfold bind at 1. rewrite Hrun3.
    exists w'. destruct (check_rows 0 (softmax_row <$> rows)) as [[]|e].
    + exists (Ok pr). split_and!; [done..|]. by exists pr.
    + by exists (Raise e).
  - subst r1. by exists w', (Raise e).
Qed.

End loops.

(** ** Returned tables *)

Section tables.
Context {F : Type} `{Scalar F}.
Implicit Types (d t : gmap string (list F)) (rows : list (list F)).
Implicit Types (data : observations F) (parameters : gmap string F).
Implicit Types (utilities : list (utility F)).

Lemma try_block_empty parameters utilities w :
  try_block parameters [] utilities w = (w, Raise (Exn StopIteration "")).
Proof. done. Qed.

Lemma try_block_differ parameters pre k vs post utilities n w :
  first_length (pre ++ (k, vs) :: post) = Ok n →
  Forall (λ kv : string * list F, length kv.2 = n) pre → length vs ≠ n →
  try_block parameters (pre ++ (k, vs) :: post) utilities w
    = (w, Raise (Exn ValueError (mismatch_message k n (length vs)))).
Proof.
  intros Hn Hpre Hvs. unfold try_block.
  rewrite (bind_lift_Ok _ _ n) by done.
  by rewrite (bind_run_Raise _ _ _ _ _ (check_lengths_differ n pre k vs post w Hpre Hvs)).
Qed.

(** What the call returns when the lengths agree. *)
Lemma calculate_probabilities_agree parameters data utilities n w :
  first_length data = Ok n →
  Forall (λ kv : string * list F, length kv.2 = n) data →
  ∃ w', extends n (length utilities) w w' ∧
    match probability_rows parameters data utilities n with
    | Ok rows => ∃ t,
        calculate_probabilities parameters data utilities w = (w', Some t) ∧
        holds_columns "P" (length utilities) rows t
    | Raise e =>
        calculate_probabilities parameters data utilities w
          = (World (stdout w ++ ["Error: " +:+ exn_str e]) (invocations w'), None)
    end.
Proof.
  intros Hn Hdata.
  destruct (try_block_rows parameters data utilities n w Hn Hdata)
    as (w' & r & Hrun & Hw' & Hr).
  exists w'. split; [done|]. unfold calculate_probabilities. rewrite Hrun.
  destruct (probability_rows parameters data utilities n) as [rows|e].
  - destruct Hr as (t & -> & Ht). by exists t.
  - subst r. simpl. by destruct Hw' as [-> _].
Qed.

(** A table is returned only when the lengths agree and no step raises. *)
Lemma calculate_probabilities_Some parameters data utilities w w' t :
  calculate_probabilities parameters data utilities w = (w', Some t) →
  ∃ n rows, first_length data = Ok n ∧
    Forall (λ kv : string * list F, length kv.2 = n) data ∧
    probability_rows parameters data utilities n = Ok rows ∧
    holds_columns "P" (length utilities) rows t ∧
    extends n (length utilities) w w'.
Proof.
  intros Hcall. destruct (first_length data) as [n|e] eqn:Hn.
  - destruct (lengths_agree_or_differ n data) as [Hdata|Hdata].
    + destruct (calculate_probabilities_agree parameters data utilities n w Hn Hdata)
        as (w1 & Hw1 & Hrows).
      destruct (probability_rows parameters data utilities n) as [rows|e] eqn:Heq.
      * destruct Hrows as (t' & Hcall' & Ht'). rewrite Hcall in Hcall'.
        injection Hcall' as <- <-. by exists n, rows.
      * by rewrite Hcall in Hrows.
    + apply first_offender in Hdata as (pre & k & vs & post & -> & Hpre & Hvs).
      unfold calculate_probabilities in Hcall.
      by rewrite (try_block_differ _ _ _ _ _ _ n) in Hcall.
  - unfold calculate_probabilities, try_block in Hcall.
    by rewrite (bind_lift_Raise _ _ e) in Hcall.
Qed.

Lemma check_rows_Ok k rows :
  check_rows k rows = Ok tt ↔ Forall (λ row, sums_to_one (py_sum row) = true) rows.
Proof.
  revert k. induction rows as [|row rows IH]; intros k; simpl.
  - split; [constructor|done].
  - rewrite Forall_cons. destruct (sums_to_one (py_sum row)).
    + rewrite IH. tauto.
    + split; [done|]. by intros [? _].
Qed.

Lemma probability_rows_Ok parameters data utilities n rows :
  probability_rows parameters data utilities n = Ok rows ↔
  ∃ values, eval_all parameters data utilities n = Ok values ∧
    rows = softmax_row <$> values ∧
    Forall (λ row, sums_to_one (py_sum row) = true) rows.
Proof.
  unfold probability_rows. destruct (eval_all parameters data utilities n) as [vs|e].
  - cbv zeta. destruct (check_rows 0 (softmax_row <$> vs)) as [[]|e] eqn:Hcheck.
    + apply check_rows_Ok in Hcheck. split.
      * intros [= <-]. by exists vs.
      * by intros (? & [= <-] & -> & _).
    + split; [done|]. intros (? & [= <-] & -> & Hall). apply (check_rows_Ok 0) in Hall. congruence.
  - split; [done|]. by intros (? & ? & _).
Qed.

Lemma eval_at_Ok parameters data utilities i vs :
  eval_at parameters data utilities i = Ok vs ↔
  ∃ data_point, data_point_at data i = Ok data_point ∧
    eval_row parameters utilities data_point = Ok vs.
Proof.
  unfold eval_at. destruct (data_point_at data i) as [dp|e].
  - split; [eauto|]. by intros (? & [= <-] & ?).
  - split; [done|]. by intros (? & ? & _).
Qed.

Lemma eval_all_lookup parameters data utilities n values i :
  eval_all parameters data utilities n = Ok values → i < n →
  ∃ vs, values !! i = Some vs ∧ eval_at parameters data utilities i = Ok vs.
Proof.
  intros Hall%result_map_Ok Hi.
  destruct (Forall2_lookup_l _ _ _ i i Hall) as (vs & Hvs & Hat).
  { apply lookup_seq. lia. }
  by exists vs.
Qed.

Lemma softmax_row_lookup (vs : list F) j :
  softmax_row vs !! j
    = (λ v, f_div (np_exp v) (py_sum (np_exp <$> vs))) <$> vs !! j.
Proof.
  unfold softmax_row. rewrite !list_lookup_fmap. by destruct (vs !! j).
Qed.

Lemma prob_rows m rows t j i row :
  holds_columns "P" m rows t → j < m → rows !! i = Some row →
  prob t j i = row !! j.
Proof.
  intros [_ Hcol] Hj Hi. destruct (Hcol j Hj) as (col & Ht & _ & Hrows).
  unfold prob. rewrite Ht. simpl. eauto.
Qed.

(** The entries of a returned table: row [i] is the softmax of the utilities
    of observation [i], and it passed the test of line 46. *)
Theorem table_entries parameters data utilities w w' t n i :
  calculate_probabilities parameters data utilities w = (w', Some t) →
  first_length data = Ok n → i < n →
  ∃ data_point vs,
    data_point_at data i = Ok data_point ∧
    eval_row parameters utilities data_point = Ok vs ∧
    (∀ j, j < length utilities → prob t j i = softmax_row vs !! j) ∧
    sums_to_one (py_sum (softmax_row vs)) = true.
Proof.
  intros (n' & rows & Hn' & _ & Hrows & Ht & _)%calculate_probabilities_Some Hn Hi.
  assert (n' = n) as -> by congruence.
  apply probability_rows_Ok in Hrows as (values & Hvalues & -> & Hsum).
  destruct (eval_all_lookup _ _ _ _ _ i Hvalues Hi) as (vs & Hvs & Hat).
  apply eval_at_Ok in Hat as (data_point & Hdp & Hrow).
  exists data_point, vs. split_and!; [done..| |].
  - intros j Hj. apply (prob_rows _ _ _ _ _ _ Ht Hj).
    by rewrite list_lookup_fmap, Hvs.
  - eapply Forall_lookup_1 in Hsum; [done|]. by rewrite list_lookup_fmap, Hvs.
Qed.

Lemma eval_row_lookup parameters utilities data_point vs j u :
  eval_row parameters utilities data_point = Ok vs → utilities !! j = Some u →
  ∃ v, vs !! j = Some v ∧ u parameters data_point = Ok v.
Proof.
  intros Hrow%result_map_Ok Hu. by eapply Forall2_lookup_l in Hrow.
Qed.

End tables.

(** ** The claims that hold in any arithmetic *)

Section claims.
Context {F : Type} `{Scalar F}.
Implicit Types (d t : gmap string (list F)) (rows : list (list F)).
Implicit Types (data : observations F) (parameters : gmap string F).
Implicit Types (utilities : list (utility F)).

(** C9.  With no variable at all in [data], line 21 raises [StopIteration]
    ([next] of an exhausted iterator); the handler prints it (its text is
    empty) and the call returns [None].  No length is compared and no utility
    function is invoked. *)
Theorem C9_empty_observations parameters utilities w :
  try_block parameters [] utilities w = (w, Raise (Exn StopIteration "")) ∧
  calculate_probabilities parameters [] utilities w
    = (World (stdout w ++ ["Error: "]) (invocations w), None).
Proof.
  split; [apply try_block_empty|].
  unfold calculate_probabilities. by rewrite try_block_empty.
Qed.


Lemma returned_column parameters data utilities w w' t n j :
  calculate_probabilities parameters data utilities w = (w', Some t) →
  first_length data = Ok n → j < length utilities →
  ∃ col, t !! key "P" j = Some col ∧ length col = n.
Proof.
  intros (n' & rows & Hn' & _ & Hrows & [_ Hcol] & _)%calculate_probabilities_Some Hn Hj.
  assert (n' = n) as -> by congruence.
  apply probability_rows_Ok in Hrows as (values & [Hlen _]%eval_all_shape & -> & _).
  destruct (Hcol j Hj) as (col & Hcolj & Hlenj & _).
  rewrite length_fmap, Hlen in Hlenj. eauto.
Qed.

(** C8.  A returned table has exactly the keys [P1 .. Pm], and under each a
    list of length [n]. *)
Theorem C8_keys_and_lengths parameters data utilities w w' t n :
  calculate_probabilities parameters data utilities w = (w', Some t) →
  first_length data = Ok n →
  (∀ k, is_Some (t !! k) ↔ ∃ j, j < length utilities ∧ k = key "P" j) ∧
  (∀ j, j < length utilities →
     ∃ col, t !! key "P" j = Some col ∧ length col = n).
Proof.
  intros Hcall Hn. split.
  - intros k. split.
    + apply calculate_probabilities_Some in Hcall
        as (_ & rows & _ & _ & _ & [Hdom _] & _).
      apply Hdom.
    + intros (j & Hj & ->).
      destruct (returned_column _ _ _ _ _ _ _ j Hcall Hn Hj) as (col & -> & _). eauto.
  - intros j Hj. by eapply returned_column.
Qed.

(** When the test of line 46 fails, it fails at some row. *)
Lemma check_rows_Raise k rows e :
  check_rows k rows = Raise e →
  ∃ i row, rows !! i = Some row ∧ sums_to_one (py_sum row) = false.
Proof.
  revert k. induction rows as [|row rows IH]; intros k; simpl; [done|].
  destruct (sums_to_one (py_sum row)) eqn:Hrow.
  - intros (i & row' & Hi & Hrow')%IH. by exists (S i), row'.
  - intros _. by exists 0, row.
Qed.

(** C1, as the code has it.  When the lengths agree and no utility function
    raises, the call returns a table or [None].  A returned table holds, for
    observation [i] and alternative [j], the quotient of line 41,
    [exp v_j / (0 + exp v_0 + ... + exp v_(m-1))] with [v_0 .. v_(m-1)] the
    utilities of observation [i], and the sum of these [m] quotients, added
    from the left starting from 0, is within [1e-6] of 1.  [None] is returned
    exactly when at some observation that sum is not within [1e-6] of 1. *)
Theorem C1_simplex parameters data utilities n values w :
  first_length data = Ok n →
  Forall (λ kv : string * list F, length kv.2 = n) data →
  eval_all parameters data utilities n = Ok values →
  match (calculate_probabilities parameters data utilities w).2 with
  | Some t =>
      ∀ i, i < n →
        ∃ vs ps, values !! i = Some vs ∧ length vs = length utilities ∧
          ps = (λ v, f_div (np_exp v) (foldl f_add f_zero (np_exp <$> vs))) <$> vs ∧
          (∀ j, j < length utilities → prob t j i = ps !! j) ∧
          f_ltb (f_abs (f_sub (foldl f_add f_zero ps) f_one)) f_tol = true
  | None =>
      ∃ i vs ps, values !! i = Some vs ∧
        ps = (λ v, f_div (np_exp v) (foldl f_add f_zero (np_exp <$> vs))) <$> vs ∧
        f_ltb (f_abs (f_sub (foldl f_add f_zero ps) f_one)) f_tol = false
  end.
Proof.
  intros Hn Hdata Hvalues.
  assert (∀ vs, (λ v, f_div (np_exp v) (foldl f_add f_zero (np_exp <$> vs))) <$> vs
    = softmax_row vs) as Hsoft.
  { intros vs. unfold softmax_row, py_sum. by rewrite <- list_fmap_compose. }
  destruct (calculate_probabilities_agree parameters data utilities n w Hn Hdata)
    as (w1 & _ & Hcall).
  unfold probability_rows in Hcall. rewrite Hvalues in Hcall.
  destruct (check_rows 0 (softmax_row <$> values)) as [[]|e] eqn:Hcheck.
  - destruct Hcall as (t & -> & Ht). simpl. intros i Hi.
    apply eval_all_shape in Hvalues as [Hlen Hrows].
    destruct (lookup_lt_is_Some_2 values i) as [vs Hvs]; [lia|].
    exists vs, (softmax_row vs). rewrite Hsoft. split_and!; [done| |done| |].
    + by eapply Forall_lookup_1 in Hrows.
    + intros j Hj. apply (prob_rows _ _ _ _ _ _ Ht Hj).
      by rewrite list_lookup_fmap, Hvs.
    + apply check_rows_Ok in Hcheck. eapply Forall_lookup_1 in Hcheck; [done|].
      by rewrite list_lookup_fmap, Hvs.
  - rewrite Hcall. simpl.
    apply check_rows_Raise in Hcheck as (i & row & Hi & Hrow).
    rewrite list_lookup_fmap in Hi.
    destruct (values !! i) as [vs|] eqn:Hvs; [|done]. injection Hi as <-.
    exists i, vs, (softmax_row vs). by rewrite Hsoft.
Qed.

(** C6.  When two alternatives' utility functions give the same value at
    every observation, a returned table has the same list under both keys. *)
Theorem C6_symmetry parameters data utilities w w' t n j k uj uk :
  calculate_probabilities parameters data utilities w = (w', Some t) →
  first_length data = Ok n →
  utilities !! j = Some uj → utilities !! k = Some uk →
  (∀ i data_point, i < n → data_point_at data i = Ok data_point →
     uj parameters data_point = uk parameters data_point) →
  ∃ col, length col = n ∧ t !! key "P" j = Some col ∧ t !! key "P" k = Some col.
Proof.
  intros Hcall Hn Huj Huk Hsame.
  destruct (returned_column _ _ _ _ _ _ _ j Hcall Hn) as (colj & Htj & Hlenj);
    [by eapply lookup_lt_Some|].
  destruct (returned_column _ _ _ _ _ _ _ k Hcall Hn) as (colk & Htk & Hlenk);
    [by eapply lookup_lt_Some|].
  exists colj. split_and!; [done..|]. rewrite Htk. f_equal.
  apply list_eq. intros i. destruct (decide (i < n)) as [Hi|Hi].
  - destruct (table_entries _ _ _ _ _ _ _ _ Hcall Hn Hi)
      as (data_point & vs & Hdp & Hvs & Hprob & _).
    pose proof (Hprob j (lookup_lt_Some _ _ _ Huj)) as Hpj.
    pose proof (Hprob k (lookup_lt_Some _ _ _ Huk)) as Hpk.
    unfold prob in Hpj, Hpk. rewrite Htj in Hpj. rewrite Htk in Hpk.
    simpl in Hpj, Hpk. rewrite Hpj, Hpk, !softmax_row_lookup.
    destruct (eval_row_lookup _ _ _ _ _ _ Hvs Huj) as (vj & -> & Hvj).
    destruct (eval_row_lookup _ _ _ _ _ _ Hvs Huk) as (vk & -> & Hvk).
    rewrite (Hsame i data_point Hi Hdp) in Hvj. congruence.
  - rewrite !lookup_ge_None_2 by lia. done.
Qed.

Lemma eval_all_Raise parameters data utilities n e :
  Forall (λ kv : string * list F, length kv.2 = n) data →
  eval_all parameters data utilities n = Raise e →
  ∃ i j u data_point, i < n ∧ utilities !! j = Some u ∧
    data_point_at data i = Ok data_point ∧ u parameters data_point = Raise e.
Proof.
  intros Hdata (i & [_ Hi]%elem_of_seq & Hat)%result_map_Raise. simpl in Hi.
  destruct (data_point_at_agree n data i Hdata Hi) as [data_point Hdp].
  unfold eval_at in Hat. rewrite Hdp in Hat.
  apply result_map_Raise in Hat as (u & [j Hj]%list_elem_of_lookup_1 & Hu).
  by exists i, j, u, data_point.
Qed.

(** C3, as the code has it.  A fault is not surfaced as a fault: whether
    the lengths differ or a utility function raises, the handler of line 50
    prints "Error: " and the text of the exception, and the call returns
    [None].  The exception printed is the [ValueError] of line 24, or one
    that an invocation of a utility function raised. *)
Theorem C3_faults_are_printed parameters data utilities n w :
  first_length data = Ok n →
  Exists (λ kv : string * list F, length kv.2 ≠ n) data ∨
    (Forall (λ kv : string * list F, length kv.2 = n) data ∧
     ∃ i j u data_point e, i < n ∧ utilities !! j = Some u ∧
       data_point_at data i = Ok data_point ∧ u parameters data_point = Raise e) →
  ∃ w' e,
    calculate_probabilities parameters data utilities w
      = (World (stdout w ++ ["Error: " +:+ exn_str e]) (invocations w'), None) ∧
    ((∃ k got, e = Exn ValueError (mismatch_message k n got)) ∨
     (∃ i j u data_point, i < n ∧ utilities !! j = Some u ∧
        data_point_at data i = Ok data_point ∧ u parameters data_point = Raise e)).
Proof.
  intros Hn [Hdiffer|[Hagree (i & j & u & data_point & e & Hi & Hu & Hdp & He)]].
  - apply first_offender in Hdiffer as (pre & k & vs & post & -> & Hpre & Hvs).
    exists w, (Exn ValueError (mismatch_message k n (length vs))). split; [|eauto].
    unfold calculate_probabilities. by rewrite (try_block_differ _ _ _ _ _ _ n).
  - destruct (calculate_probabilities_agree parameters data utilities n w Hn Hagree)
      as (w' & _ & Hcall).
    unfold probability_rows in Hcall.
    destruct (eval_all parameters data utilities n) as [values|e'] eqn:Hall.
    + destruct (eval_all_lookup _ _ _ _ _ i Hall Hi) as (vs & _ & Hat).
      apply eval_at_Ok in Hat as (data_point' & Hdp' & Hvs).
      assert (data_point' = data_point) as -> by congruence.
      destruct (eval_row_lookup _ _ _ _ _ _ Hvs Hu) as (v & _ & Hv). congruence.
    + exists w', e'. split; [done|]. right. by eapply eval_all_Raise.
Qed.

Lemma eval_all_no_utilities parameters data n :
  Forall (λ kv : string * list F, length kv.2 = n) data →
  eval_all parameters data [] n = Ok (replicate n []).
Proof.
  intros Hdata. unfold eval_all.
  assert (∀ k len, k + len ≤ n →
    result_map (eval_at parameters data []) (seq k len) = Ok (replicate len []))
    as Hgen; [|by apply Hgen].
  intros k len. revert k. induction len as [|len IH]; intros k Hk; simpl; [done|].
  destruct (data_point_at_agree n data k Hdata) as [data_point Hdp]; [lia|].
  unfold eval_at at 1. rewrite Hdp. simpl. by rewrite IH by lia.
Qed.

End claims.

(** ** binary64 *)

Lemma float_cases (x : float) :
  x = nan ∨ x = infinity ∨ x = neg_infinity ∨ x = 0%float ∨ x = (-0)%float ∨
  ∃ s m e, Prim2SF x = S754_finite s m e.
Proof.
  destruct (Prim2SF x) as [[]|[]| |s m e] eqn:Hx;
    [| | | | |by repeat right; eauto];
    rewrite <-(SF2Prim_Prim2SF x), Hx; auto 6.
Qed.

Lemma add_zero_finite x s m e :
  Prim2SF x = S754_finite s m e → (0 + x)%float = x.
Proof.
  intros Hx. apply Prim2SF_inj. rewrite add_spec, Hx. reflexivity.
Qed.

Lemma div_self_finite x s m e :
  Prim2SF x = S754_finite s m e → (x / x)%float = 1%float.
Proof.
  intros Hx. apply Prim2SF_inj. rewrite div_spec, Hx.
  change (Prim2SF 1%float) with (S754_finite false 4503599627370496 (-52)).
  unfold SF64div, SFdiv, SFdiv_core_binary.
  replace (Zdigits2 (Z.pos m) + e - (Zdigits2 (Z.pos m) + e))%Z with 0%Z by lia.
  replace (e - e)%Z with 0%Z by lia.
  change (Z.min (fexp prec emax 0) 0) with (-53)%Z.
  change (0 - -53)%Z with 53%Z. cbv iota beta.
  rewrite Z.shiftl_mul_pow2 by lia.
  assert (Z.div_eucl (Z.pos m * 2 ^ 53) (Z.pos m) = (2 ^ 53, 0)%Z) as ->.
  { generalize (Z.div_eucl_eq (Z.pos m * 2 ^ 53) (Z.pos m)).
    generalize (Z.mod_pos_bound (Z.pos m * 2 ^ 53) (Z.pos m)).
    unfold Z.modulo. destruct (Z.div_eucl _ _) as [q r]. intros Hr Hq.
    assert (0 <= r < Z.pos m)%Z as Hr' by (apply Hr; lia).
    assert (Z.pos m * (2 ^ 53 - q) = r)%Z as Hd by lia.
    assert (2 ^ 53 - q = 0)%Z by nia.
    f_equal; lia. }
  unfold new_location, new_location_even, new_location_odd. simpl Z.eqb.
  destruct (Z.even (Z.pos m)); destruct s; reflexivity.
Qed.

Section binary64.
Variable exp64 : float → float.
Implicit Types (data : observations float) (parameters : gmap string float).
Implicit Types (utilities : list (utility float)).

(** With one alternative the test of line 46 passes only on a 1. *)
Lemma alone_is_one (e : float) :
  sums_to_one (H := binary64 exp64) (0 + e / (0 + e))%float = true →
  (e / (0 + e))%float = 1%float.
Proof.
  destruct (float_cases e) as [->|[->|[->|[->|[->|(s & m & ex & He)]]]]];
    try (vm_compute; discriminate).
  intros _. by rewrite (add_zero_finite _ _ _ _ He), (div_self_finite _ _ _ _ He).
Qed.

(** C7, as the code has it.  With a single utility function, a returned
    table holds exactly 1 at every observation.  (No table is returned when
    the exponential of a utility is infinite or zero.) *)
Theorem C7_single_alternative parameters data u w w' t n i :
  calculate_probabilities (H := binary64 exp64) parameters data [u] w = (w', Some t) →
  first_length data = Ok n → i < n →
  prob t 0 i = Some 1%float.
Proof.
  intros Hcall Hn Hi.
  destruct (table_entries _ _ _ _ _ _ _ _ Hcall Hn Hi)
    as (data_point & vs & _ & Hvs & Hprob & Hsum).
  rewrite (Hprob 0) by (simpl; lia).
  unfold eval_row in Hvs. simpl in Hvs.
  destruct (u parameters data_point) as [v|]; [|done]. injection Hvs as <-.
  simpl. f_equal. by apply alone_is_one.
Qed.

(** C10.  With no utility function and at least one observation the call
    returns [None]: the sum of no probabilities is 0, the test of line 46
    fails for observation 0, and the handler prints the [AssertionError]. *)
Theorem C10_no_alternatives parameters data n w :
  first_length data = Ok n → 0 < n →
  (calculate_probabilities (H := binary64 exp64) parameters data [] w).2 = None ∧
  (Forall (λ kv : string * list float, length kv.2 = n) data →
   calculate_probabilities (H := binary64 exp64) parameters data [] w
     = (World (stdout w ++ ["Error: " +:+ assert_message 0]) (invocations w), None)).
Proof.
  intros Hn Hpos.
  assert (Forall (λ kv : string * list float, length kv.2 = n) data →
    calculate_probabilities (H := binary64 exp64) parameters data [] w
     = (World (stdout w ++ ["Error: " +:+ assert_message 0]) (invocations w), None))
    as Hagree.
  { intros Hdata.
    destruct (calculate_probabilities_agree (H := binary64 exp64)
      parameters data [] n w Hn Hdata) as (w1 & ->%extends_no_alternatives & Hcall).
    unfold probability_rows in Hcall.
    rewrite (eval_all_no_utilities _ _ _ Hdata) in Hcall.
    destruct n as [|n]; [lia|]. done. }
  split; [|done].
  destruct (lengths_agree_or_differ n data) as [Hdata|Hdata].
  - by rewrite Hagree.
  - apply first_offender in Hdata as (pre & k & vs & post & -> & Hpre & Hvs).
    unfold calculate_probabilities. by rewrite (try_block_differ _ _ _ _ _ _ n).
Qed.

End binary64.


(** ** The claims on concrete inputs *)

Lemma C1_simplex_witness :
  first_length two_points = Ok 2 ∧
  Forall (λ kv : string * list float, length kv.2 = 2) two_points ∧
  eval_all ∅ two_points [variable_utility "X1"; constant_utility 0%float] 2
    = Ok [[0; 0]; [1; 0]]%float ∧
  ∃ t,
    (calculate_probabilities (H := binary64_model) ∅ two_points
      [variable_utility "X1"; constant_utility 0%float] world0).2 = Some t ∧
    ∀ i, i < 2 →
      ∃ vs ps, [[0; 0]; [1; 0]]%float !! i = Some vs ∧ length vs = 2 ∧
        ps = (λ v, exp_model v / foldl PrimFloat.add 0 (exp_model <$> vs))%float <$> vs ∧
        (∀ j, j < 2 → prob t j i = ps !! j) ∧
        (abs (foldl PrimFloat.add 0 ps - 1) <? 0x1.0c6f7a0b5ed8dp-20)%float = true.
Proof.
  split_and!; [reflexivity|repeat constructor|reflexivity|].
  eexists. split; [vm_compute; reflexivity|].
  apply (C1_simplex (H := binary64_model) ∅ two_points
    [variable_utility "X1"; constant_utility 0%float] 2 [[0; 0]; [1; 0]]%float world0);
    [reflexivity|repeat constructor|reflexivity].
Defined.

(** C1 as the specification states it fails: lengths that agree, two utility
    functions and none that raises, yet no table is returned.  The utilities
    of the one observation are 0 and 1000; the exponential of 1000 overflows,
    the quotients of line 41 are 0 and a nan, and the test of line 46 fails. *)
Lemma C1_overflow :
  first_length (one_point 0) = Ok 1 ∧
  Forall (λ kv : string * list float, length kv.2 = 1) (one_point 0) ∧
  eval_all ∅ (one_point 0) [variable_utility "X1"; constant_utility 1000%float] 1
    = Ok [[0; 1000]]%float ∧
  calculate_probabilities (H := binary64_model) ∅ (one_point 0)
    [variable_utility "X1"; constant_utility 1000%float] world0
  = (World ["Error: Probabilities do not sum to 1 for data point 0."] [(0, 0); (0, 1)],
     None).
Proof. split_and!; [reflexivity|repeat constructor|reflexivity|vm_compute; reflexivity]. Qed.


(** The scenario of the specification: what is printed names X2, 3 and 2. *)
Example mismatched_data_run :
  calculate_probabilities (H := binary64_model) ∅ mismatched_data
    [variable_utility "X1"] world0
  = (World ["Error: Data length mismatch for variable 'X2'. Expected 3, got 2."] [],
     None).
Proof. vm_compute. reflexivity. Qed.

(** C3 as the specification states it fails: a call with mismatched lengths
    and a call whose utility function raises [KeyError] both return [None],
    the same value, and raise nothing. *)
Lemma C3_one_outcome :
  (calculate_probabilities (H := binary64_model) ∅ mismatched_data
     [variable_utility "X1"] world0).2 = None ∧
  (calculate_probabilities (H := binary64_model) ∅ three_points
     [variable_utility "X9"] world0).2 = None.
Proof. split; vm_compute; reflexivity. Qed.

Lemma C3_faults_are_printed_witness :
  ∃ w' e,
    calculate_probabilities (H := binary64_model) ∅ three_points
        [variable_utility "X9"] world0
      = (World (stdout world0 ++ ["Error: " +:+ exn_str e]) (invocations w'), None) ∧
    ((∃ k got, e = Exn ValueError (mismatch_message k 3 got)) ∨
     (∃ i j u data_point, i < 3 ∧
        [variable_utility (F := float) "X9"] !! j = Some u ∧
        data_point_at three_points i = Ok data_point ∧ u ∅ data_point = Raise e)).
Proof.
  apply (C3_faults_are_printed (H := binary64_model) ∅ three_points
    [variable_utility "X9"] 3 world0); [reflexivity|].
  right. split; [by repeat constructor|].
  exists 0, 0, (variable_utility "X9"), {[ "X1" := 1%float ]},
    (Exn KeyError "'X9'").
  split_and!; [lia|reflexivity|vm_compute; reflexivity|vm_compute; reflexivity].
Defined.

Lemma C6_symmetry_witness :
  ∃ w' t,
    calculate_probabilities (H := binary64_model) ∅ two_points
      [variable_utility "X1"; constant_utility 0%float; variable_utility "X1"] world0
      = (w', Some t) ∧
    ∃ col, length col = 2 ∧ t !! key "P" 0 = Some col ∧ t !! key "P" 2 = Some col.
Proof.
  do 2 eexists. split; [vm_compute; reflexivity|].
  eapply (C6_symmetry (H := binary64_model) ∅ two_points
    [variable_utility "X1"; constant_utility 0%float; variable_utility "X1"]
    world0 _ _ 2 0 2); [vm_compute; reflexivity|reflexivity..|done].
Defined.

Lemma C7_single_alternative_witness :
  ∃ w' t,
    calculate_probabilities (H := binary64_model) ∅ two_points
      [variable_utility "X1"] world0 = (w', Some t) ∧
    prob t 0 1 = Some 1%float.
Proof.
  do 2 eexists. split; [vm_compute; reflexivity|].
  eapply (C7_single_alternative exp_model ∅ two_points (variable_utility "X1")
    world0 _ _ 2 1); [vm_compute; reflexivity|reflexivity|lia].
Defined.

(** C7 as the specification states it fails: with the single utility 1000,
    whose exponential overflows, no table is returned. *)
Lemma C7_overflow :
  calculate_probabilities (H := binary64_model) ∅ (one_point 1000)
    [variable_utility "X1"] world0
  = (World ["Error: Probabilities do not sum to 1 for data point 0."] [(0, 0)], None).
Proof. vm_compute. reflexivity. Qed.

Lemma C8_keys_and_lengths_witness :
  ∃ w' t,
    calculate_probabilities (H := binary64_model) ∅ two_points
      [variable_utility "X1"; constant_utility 0%float] world0 = (w', Some t) ∧
    (∀ k, is_Some (t !! k) ↔ ∃ j, j < 2 ∧ k = key "P" j) ∧
    (∀ j, j < 2 → ∃ col, t !! key "P" j = Some col ∧ length col = 2).
Proof.
  do 2 eexists. split; [vm_compute; reflexivity|].
  eapply (C8_keys_and_lengths (H := binary64_model) ∅ two_points
    [variable_utility "X1"; constant_utility 0%float] world0);
    [vm_compute; reflexivity|reflexivity].
Defined.

Lemma C10_no_alternatives_witness :
  (calculate_probabilities (H := binary64_model) ∅ three_points [] world0).2 = None ∧
  (Forall (λ kv : string * list float, length kv.2 = 3) three_points →
   calculate_probabilities (H := binary64_model) ∅ three_points [] world0
     = (World (stdout world0 ++ ["Error: " +:+ assert_message 0]) (invocations world0),
        None)).
Proof. apply (C10_no_alternatives exp_model ∅ three_points 3 world0); [reflexivity|lia]. Defined.

(** ** Exact arithmetic *)

Section exact.
Implicit Types (xs vs : list R).
Implicit Types (data : observations R) (parameters : gmap string R).
Implicit Types (utilities : list (utility R)).

Lemma foldl_Rplus a xs : foldl Rplus a xs = (a + foldl Rplus 0 xs)%R.
Proof.
  revert a. induction xs as [|x xs IH]; intros a; simpl; [lra|].
  rewrite (IH (a + x)%R), (IH (0 + x)%R). lra.
Qed.

Lemma py_sum_exact_cons x xs :
  py_sum (H := exact) (x :: xs) = (x + py_sum (H := exact) xs)%R.
Proof. unfold py_sum. simpl. rewrite foldl_Rplus. lra. Qed.

Lemma py_sum_exact_nonneg xs :
  Forall (λ x, 0 <= x)%R xs → (0 <= py_sum (H := exact) xs)%R.
Proof.
  induction 1 as [|x xs Hx _ IH]; [unfold py_sum; simpl; lra|].
  rewrite py_sum_exact_cons. lra.
Qed.

Lemma py_sum_exact_ge xs k y :
  Forall (λ x, 0 <= x)%R xs → xs !! k = Some y → (y <= py_sum (H := exact) xs)%R.
Proof.
  intros Hxs. revert k. induction Hxs as [|x xs Hx Hxs IH]; intros k Hk; [done|].
  rewrite py_sum_exact_cons. destruct k as [|k]; simpl in Hk.
  - injection Hk as ->. apply py_sum_exact_nonneg in Hxs. lra.
  - apply IH in Hk. lra.
Qed.

Lemma py_sum_exact_insert xs j x y :
  xs !! j = Some x →
  py_sum (H := exact) (<[j := y]> xs) = (py_sum (H := exact) xs - x + y)%R.
Proof.
  revert j. induction xs as [|z xs IH]; intros j Hj; [done|].
  destruct j as [|j]; simpl in *.
  - injection Hj as ->. rewrite !py_sum_exact_cons. lra.
  - rewrite !py_sum_exact_cons, (IH j Hj). lra.
Qed.

Lemma py_sum_exact_div xs s :
  py_sum (H := exact) ((λ x, x / s)%R <$> xs) = (py_sum (H := exact) xs / s)%R.
Proof.
  induction xs as [|x xs IH]; [unfold py_sum; simpl; lra|].
  rewrite fmap_cons, !py_sum_exact_cons, IH. lra.
Qed.

Lemma exp_values_positive vs : Forall (λ x, 0 < x)%R (exp <$> vs).
Proof. apply Forall_fmap, Forall_true. intros v. apply exp_pos. Qed.

Lemma py_sum_exp_positive vs : vs ≠ [] → (0 < py_sum (H := exact) (exp <$> vs))%R.
Proof.
  destruct vs as [|v vs]; [done|]. intros _. rewrite fmap_cons, py_sum_exact_cons.
  pose proof (exp_pos v).
  pose proof (py_sum_exact_nonneg (exp <$> vs)) as Hsum.
  assert (0 <= py_sum (H := exact) (exp <$> vs))%R; [|lra].
  apply Hsum. eapply Forall_impl; [apply exp_values_positive|]. simpl. intros; lra.
Qed.

(** In exact arithmetic the probabilities of an observation sum to 1. *)
Lemma softmax_row_exact_sum vs :
  vs ≠ [] → py_sum (H := exact) (softmax_row (H := exact) vs) = 1%R.
Proof.
  intros Hvs. unfold softmax_row. simpl. rewrite py_sum_exact_div.
  pose proof (py_sum_exp_positive vs Hvs). simpl in *. field. lra.
Qed.

Lemma sums_to_one_exact : sums_to_one (H := exact) 1%R = true.
Proof.
  unfold sums_to_one. simpl. destruct (Rlt_dec _ _) as [|Hn]; [done|].
  exfalso. apply Hn. rewrite Rminus_diag, Rabs_R0. lra.
Qed.

(** In exact arithmetic a table is returned whenever the lengths agree,
    there is a utility function, and no utility function raises. *)
Lemma exact_returns parameters data utilities n values w :
  first_length data = Ok n →
  Forall (λ kv : string * list R, length kv.2 = n) data →
  eval_all parameters data utilities n = Ok values → utilities ≠ [] →
  ∃ w' t, calculate_probabilities (H := exact) parameters data utilities w
            = (w', Some t).
Proof.
  intros Hn Hdata Hvalues Hm.
  destruct (calculate_probabilities_agree (H := exact) parameters data utilities n w
    Hn Hdata) as (w' & _ & Hcall).
  assert (probability_rows (H := exact) parameters data utilities n
    = Ok (softmax_row (H := exact) <$> values)) as Hrows.
  { apply probability_rows_Ok. exists values. split_and!; [done..|].
    apply Forall_fmap, Forall_forall. intros vs Hvs. simpl.
    apply eval_all_shape in Hvalues as [_ Hshape].
    rewrite softmax_row_exact_sum; [apply sums_to_one_exact|].
    eapply Forall_forall in Hshape; [|done]. destruct vs, utilities; done. }
  rewrite Hrows in Hcall. destruct Hcall as (t & Hcall & _). eauto.
Qed.

Lemma Rdiv_lt_cross a b c d :
  (0 < b → 0 < d → a * d < c * b → a / b < c / d)%R.
Proof.
  intros Hb Hd Hlt. apply (Rmult_lt_reg_r (b * d)); [nra|].
  replace (a / b * (b * d))%R with (a * d)%R by (field; lra).
  replace (c / d * (b * d))%R with (c * b)%R by (field; lra). done.
Qed.

(** Raising one utility of a row raises that alternative's probability and
    lowers the others'. *)
Lemma softmax_row_monotone vs j a a' :
  vs !! j = Some a → (a < a')%R →
  (∀ k b, k ≠ j → vs !! k = Some b →
     (exp b / py_sum (H := exact) (exp <$> <[j := a']> vs)
        < exp b / py_sum (H := exact) (exp <$> vs))%R) ∧
  ((∃ k, k ≠ j ∧ k < length vs) →
     (exp a / py_sum (H := exact) (exp <$> vs)
        < exp a' / py_sum (H := exact) (exp <$> <[j := a']> vs))%R).
Proof.
  intros Hj Hlt.
  assert (vs ≠ []) as Hvs by (by destruct vs).
  pose proof (py_sum_exp_positive vs Hvs) as Hpos.
  pose proof (exp_increasing a a' Hlt) as Hexp.
  pose proof (exp_pos a) as Ha.
  assert (py_sum (H := exact) (exp <$> <[j := a']> vs)
    = py_sum (H := exact) (exp <$> vs) - exp a + exp a')%R as Hsum'.
  { rewrite list_fmap_insert. apply py_sum_exact_insert.
    by rewrite list_lookup_fmap, Hj. }
  rewrite Hsum'. split.
  - intros k b Hk Hb. pose proof (exp_pos b).
    apply Rdiv_lt_cross; [lra..|nra].
  - intros (k & Hk & Hlen). destruct (lookup_lt_is_Some_2 vs k Hlen) as [b Hb].
    assert (exp b <= py_sum (H := exact) (<[j := 0%R]> (exp <$> vs)))%R as Hothers.
    { apply (py_sum_exact_ge _ k).
      - apply Forall_insert; [|lra]. eapply Forall_impl; [apply exp_values_positive|].
        simpl. intros; lra.
      - rewrite list_lookup_insert_ne by done. by rewrite list_lookup_fmap, Hb. }
    rewrite (py_sum_exact_insert _ _ (exp a)) in Hothers
      by (by rewrite list_lookup_fmap, Hj).
    pose proof (exp_pos b). apply Rdiv_lt_cross; [lra..|nra].
Qed.

(** C4, as the code has it.  Read in exact real arithmetic and with at
    least two alternatives: raising the utility of alternative [j] at
    observation [i], the other utilities at [i] unchanged, strictly raises
    [P[j][i]] and strictly lowers [P[k][i]] for every other [k]. *)
Theorem C4_monotonicity parameters data utilities utilities' w1 w1' t w2 w2' t' n i j :
  calculate_probabilities (H := exact) parameters data utilities w1 = (w1', Some t) →
  calculate_probabilities (H := exact) parameters data utilities' w2 = (w2', Some t') →
  first_length data = Ok n → i < n → 2 ≤ length utilities →
  (∀ data_point vs,
     data_point_at data i = Ok data_point →
     eval_row parameters utilities data_point = Ok vs →
     ∃ a a', vs !! j = Some a ∧ (a < a')%R ∧
       eval_row parameters utilities' data_point = Ok (<[j := a']> vs)) →
  (∃ p p', prob t j i = Some p ∧ prob t' j i = Some p' ∧ (p < p')%R) ∧
  (∀ k, k ≠ j → k < length utilities →
     ∃ p p', prob t k i = Some p ∧ prob t' k i = Some p' ∧ (p' < p)%R).
Proof.
  intros Hcall Hcall' Hn Hi Hm Hraised.
  destruct (table_entries _ _ _ _ _ _ _ _ Hcall Hn Hi)
    as (data_point & vs & Hdp & Hvs & Hprob & _).
  destruct (table_entries _ _ _ _ _ _ _ _ Hcall' Hn Hi)
    as (data_point' & vs' & Hdp' & Hvs' & Hprob' & _).
  assert (data_point' = data_point) as -> by congruence.
  destruct (Hraised _ _ Hdp Hvs) as (a & a' & Hj & Hlt & Hvs'').
  assert (vs' = <[j := a']> vs) as -> by congruence.
  pose proof (result_map_length _ _ _ Hvs) as Hlen.
  pose proof (result_map_length _ _ _ Hvs') as Hlen'.
  rewrite length_insert in Hlen'.
  pose proof (lookup_lt_Some _ _ _ Hj) as Hjlt.
  destruct (softmax_row_monotone vs j a a' Hj Hlt) as [Hothers Hself].
  split.
  - exists (exp a / py_sum (H := exact) (exp <$> vs))%R,
      (exp a' / py_sum (H := exact) (exp <$> <[j := a']> vs))%R.
    split_and!.
    + rewrite Hprob by lia. by rewrite softmax_row_lookup, Hj.
    + rewrite Hprob' by lia.
      by rewrite softmax_row_lookup, list_lookup_insert_eq by done.
    + apply Hself. destruct (decide (j = 0)) as [->|]; [exists 1|exists 0]; lia.
  - intros k Hk Hklt.
    destruct (lookup_lt_is_Some_2 vs k) as [b Hb]; [lia|].
    exists (exp b / py_sum (H := exact) (exp <$> vs))%R,
      (exp b / py_sum (H := exact) (exp <$> <[j := a']> vs))%R.
    split_and!.
    + rewrite Hprob by lia. by rewrite softmax_row_lookup, Hb.
    + rewrite Hprob' by lia.
      by rewrite softmax_row_lookup, list_lookup_insert_ne, Hb by done.
    + by apply (Hothers k).
Qed.

End exact.

Lemma C4_monotonicity_witness :
  ∃ w1' t w2' t',
    calculate_probabilities (H := exact) ∅ one_point_exact
      [constant_utility 0%R; constant_utility 0%R] world0 = (w1', Some t) ∧
    calculate_probabilities (H := exact) ∅ one_point_exact
      [constant_utility 1%R; constant_utility 0%R] world0 = (w2', Some t') ∧
    (∃ p p', prob t 0 0 = Some p ∧ prob t' 0 0 = Some p' ∧ (p < p')%R) ∧
    (∀ k, k ≠ 0 → k < 2 →
       ∃ p p', prob t k 0 = Some p ∧ prob t' k 0 = Some p' ∧ (p' < p)%R).
Proof.
  destruct (exact_returns ∅ one_point_exact
    [constant_utility 0%R; constant_utility 0%R] 1 [[0%R; 0%R]] world0)
    as (w1' & t & Hcall); [reflexivity|by repeat constructor|reflexivity|done|].
  destruct (exact_returns ∅ one_point_exact
    [constant_utility 1%R; constant_utility 0%R] 1 [[1%R; 0%R]] world0)
    as (w2' & t' & Hcall'); [reflexivity|by repeat constructor|reflexivity|done|].
  exists w1', t, w2', t'. split; [exact Hcall|]. split; [exact Hcall'|].
  apply (C4_monotonicity ∅ one_point_exact _ _ _ _ _ _ _ _ 1 0 0 Hcall Hcall');
    [reflexivity|lia|simpl; lia|].
  intros data_point vs _ [= <-]. exists 0%R, 1%R.
  split; [reflexivity|]. split; [lra|reflexivity].
Defined.

(** C4 as the specification states it fails on the code.  With one
    alternative the probability is 1 whatever the utility; with two, the
    probabilities saturate: the utilities (0, -1000) and (1, -1000) both give
    the probabilities (1, 0). *)
Lemma C4_not_strict :
  (∃ w t w' t',
     calculate_probabilities (H := binary64_model) ∅ (one_point 0)
       [variable_utility "X1"] world0 = (w, Some t) ∧
     calculate_probabilities (H := binary64_model) ∅ (one_point 1)
       [variable_utility "X1"] world0 = (w', Some t') ∧
     prob t 0 0 = Some 1%float ∧ prob t' 0 0 = Some 1%float) ∧
  (∃ w t w' t',
     calculate_probabilities (H := binary64_model) ∅ (one_point 0)
       [variable_utility "X1"; constant_utility (-1000)%float] world0 = (w, Some t) ∧
     calculate_probabilities (H := binary64_model) ∅ (one_point 1)
       [variable_utility "X1"; constant_utility (-1000)%float] world0 = (w', Some t') ∧
     prob t 0 0 = Some 1%float ∧ prob t' 0 0 = Some 1%float ∧
     prob t 1 0 = Some 0%float ∧ prob t' 1 0 = Some 0%float).
Proof.
  split; do 4 eexists; split_and!; vm_compute; reflexivity.
Qed.


(** ** The number e *)

Lemma alt_partial_series n :
  alt_partial n
    = (sum_f_R0 (tg_alt (λ i, / INR (fact i))%R) n, tg_alt (λ i, / INR (fact i))%R n).
Proof.
  induction n as [|n IH].
  - simpl. unfold tg_alt. simpl. f_equal; lra.
  - cbn [alt_partial sum_f_R0]. rewrite IH. f_equal.
    + f_equal. unfold tg_alt. rewrite fact_simpl, mult_INR. cbn [pow].
      pose proof (INR_fact_neq_0 n). pose proof (not_0_INR (S n)).
      field. split; [done|]. apply H0. lia.
    + unfold tg_alt. rewrite fact_simpl, mult_INR. cbn [pow].
      pose proof (INR_fact_neq_0 n). pose proof (not_0_INR (S n)).
      field. split; [done|]. apply H0. lia.
Qed.

Lemma exp_minus_1_bounds n :
  ((alt_partial (S (2 * n))).1 <= exp (-1) <= (alt_partial (2 * n)).1)%R.
Proof.
  rewrite !alt_partial_series. simpl fst.
  apply alternated_series_ineq.
  - intros k. apply Rinv_le_contravar; [apply INR_fact_lt_0|].
    apply le_INR, fact_le. lia.
  - intros eps Heps. destruct (cv_speed_pow_fact 1 eps Heps) as [N HN].
    exists N. intros k Hk. specialize (HN k Hk).
    by rewrite pow1, Rdiv_1_l in HN.
  - unfold exp. destruct (exist_exp (-1)) as [l Hl]. simpl.
    intros eps Heps. destruct (Hl eps Heps) as [N HN]. exists N.
    intros k Hk. specialize (HN k Hk).
    rewrite (sum_eq _ (λ i, / INR (fact i) * (-1) ^ i)%R); [done|].
    intros i _. unfold tg_alt. lra.
Qed.

Lemma exp_1_bounds : (2718281827 / 1000000000 <= exp 1 <= 271828183 / 100000000)%R.
Proof.
  pose proof (exp_minus_1_bounds 6) as [Hlo Hhi].
  change (2 * 6) with 12 in Hlo, Hhi.
  cbn [alt_partial fst INR] in Hlo, Hhi.
  assert (exp 1 * exp (-1) = 1)%R as Hinv.
  { rewrite <-exp_plus. replace (1 + -1)%R with 0%R by lra. apply exp_0. }
  pose proof (exp_pos 1) as He. pose proof (exp_pos (-1)) as Hy.
  split.
  - apply (Rmult_le_reg_r (exp (-1))); [done|]. rewrite Hinv. lra.
  - apply (Rmult_le_reg_r (exp (-1))); [done|]. rewrite Hinv. lra.
Qed.

Lemma e_ratio_bounds :
  (7310585785 / 10000000000 <= exp 1 / (exp 1 + 1) <= 7310585788 / 10000000000)%R ∧
  (2689414212 / 10000000000 <= 1 / (exp 1 + 1) <= 2689414215 / 10000000000)%R.
Proof.
  destruct exp_1_bounds as [Hlo Hhi].
  assert (0 < exp 1 + 1)%R as Hpos by lra.
  repeat split.
  - apply (Rmult_le_reg_r (exp 1 + 1)); [done|].
    replace (exp 1 / (exp 1 + 1) * (exp 1 + 1))%R with (exp 1) by (field; lra). lra.
  - apply (Rmult_le_reg_r (exp 1 + 1)); [done|].
    replace (exp 1 / (exp 1 + 1) * (exp 1 + 1))%R with (exp 1) by (field; lra). lra.
  - apply (Rmult_le_reg_r (exp 1 + 1)); [done|].
    replace (1 / (exp 1 + 1) * (exp 1 + 1))%R with 1%R by (field; lra). lra.
  - apply (Rmult_le_reg_r (exp 1 + 1)); [done|].
    replace (1 / (exp 1 + 1) * (exp 1 + 1))%R with 1%R by (field; lra). lra.
Qed.

(** ** The scenario with utilities (0, 1) and (0, 0) *)

Lemma scenario_values_near :
  (Rabs (float_to_R 0x1.764d4f5d5a2bdp-1 - exp 1 / (exp 1 + 1)) < 1 / 1000000000)%R ∧
  (Rabs (float_to_R 0x1.136561454ba86p-2 - 1 / (exp 1 + 1)) < 1 / 1000000000)%R.
Proof.
  destruct e_ratio_bounds as [[? ?] [? ?]].
  assert (float_to_R 0x1.764d4f5d5a2bdp-1
    = (6584790284608189 / 9007199254740992)%R) as -> by reflexivity.
  assert (float_to_R 0x1.136561454ba86p-2
    = (4844817940265606 / 18014398509481984)%R) as -> by reflexivity.
  split; apply Rabs_def1; lra.
Qed.

Section scenario.
Variable exp64 : float → float.
Hypothesis exp64_0 : exp64 0%float = 1%float.
Hypothesis exp64_1 : exp64 1%float = e_below ∨ exp64 1%float = e_above.

Lemma scenario_rows :
  softmax_row (H := binary64 exp64) <$> [[0; 0]; [1; 0]]%float
    = [[0.5; 0.5]; [0x1.764d4f5d5a2bdp-1; 0x1.136561454ba86p-2]]%float.
Proof.
  unfold softmax_row, py_sum. simpl. rewrite exp64_0.
  destruct exp64_1 as [-> | ->]; reflexivity.
Qed.

End scenario.

(** C5.  The scenario of the specification: two observations, two
    alternatives, utilities V1 = (0, 1) and V2 = (0, 0); observation 0 has
    the utilities (0, 0) and observation 1 has (1, 0).  numpy's [exp] is a
    parameter: it is assumed to give 1 at 0 and, at 1, one of the two binary64
    numbers next to e.  The call returns P1 = (0.5, p1) and P2 = (0.5, p2)
    with p1 within 1e-9 of e/(e+1) and p2 within 1e-9 of 1/(e+1). *)
Theorem C5_scenario exp64 parameters data utilities w :
  exp64 0%float = 1%float →
  exp64 1%float = e_below ∨ exp64 1%float = e_above →
  first_length data = Ok 2 →
  Forall (λ kv : string * list float, length kv.2 = 2) data →
  eval_all parameters data utilities 2 = Ok [[0; 0]; [1; 0]]%float →
  ∃ w' t p1 p2,
    calculate_probabilities (H := binary64 exp64) parameters data utilities w
      = (w', Some t) ∧
    t !! "P1" = Some [0.5%float; p1] ∧ t !! "P2" = Some [0.5%float; p2] ∧
    float_to_R 0.5 = (1 / 2)%R ∧
    (Rabs (float_to_R p1 - exp 1 / (exp 1 + 1)) < 1 / 1000000000)%R ∧
    (Rabs (float_to_R p2 - 1 / (exp 1 + 1)) < 1 / 1000000000)%R.
Proof.
  intros H0 H1 Hn Hdata Hvalues.
  destruct (calculate_probabilities_agree (H := binary64 exp64)
    parameters data utilities 2 w Hn Hdata) as (w' & _ & Hcall).
  unfold probability_rows in Hcall. rewrite Hvalues in Hcall. cbv zeta in Hcall.
  rewrite (scenario_rows exp64 H0 H1) in Hcall.
  apply eval_all_shape in Hvalues as [_ Hm].
  apply Forall_cons in Hm as [Hm _]. simpl in Hm. rewrite <-Hm in Hcall.
  change (check_rows (H := binary64 exp64) 0 _) with (Ok tt) in Hcall.
  destruct Hcall as (t & Hcall & _ & Hcol).
  destruct (Hcol 0) as (col1 & Ht1 & Hlen1 & Hrows1); [lia|].
  destruct (Hcol 1) as (col2 & Ht2 & Hlen2 & Hrows2); [lia|].
  pose proof (Hrows1 0 _ eq_refl) as H10. pose proof (Hrows1 1 _ eq_refl) as H11.
  pose proof (Hrows2 0 _ eq_refl) as H20. pose proof (Hrows2 1 _ eq_refl) as H21.
  destruct col1 as [|a1 [|b1 [|]]]; try done.
  destruct col2 as [|a2 [|b2 [|]]]; try done.
  simpl in *. simplify_eq.
  exists w', t, 0x1.764d4f5d5a2bdp-1%float, 0x1.136561454ba86p-2%float.
  destruct scenario_values_near as [Hp1 Hp2].
  split_and!; [done..| | |]; [|done..].
  assert (float_to_R 0.5 = (4503599627370496 / 9007199254740992)%R) as ->
    by reflexivity.
  lra.
Qed.

Lemma C5_scenario_witness :
  ∃ w' t p1 p2,
    calculate_probabilities (H := binary64_model) ∅ two_points
      [variable_utility "X1"; constant_utility 0%float] world0 = (w', Some t) ∧
    t !! "P1" = Some [0.5%float; p1] ∧ t !! "P2" = Some [0.5%float; p2] ∧
    float_to_R 0.5 = (1 / 2)%R ∧
    (Rabs (float_to_R p1 - exp 1 / (exp 1 + 1)) < 1 / 1000000000)%R ∧
    (Rabs (float_to_R p2 - 1 / (exp 1 + 1)) < 1 / 1000000000)%R.
Proof.
  apply (C5_scenario exp_model ∅ two_points
    [variable_utility "X1"; constant_utility 0%float] world0).
  - reflexivity.
  - right. reflexivity.
  - reflexivity.
  - by repeat constructor.
  - reflexivity.
Defined.

(** * More of the behaviour of calculate_probabilities *)

(** ** What the call does to the world *)

Lemma silent_ret {A} (a : A) : silent (ret a).
Proof. done. Qed.

Lemma silent_raise {A} e : silent (raise (A := A) e).
Proof. done. Qed.

Lemma silent_lift {A} (r : result A) : silent (lift r).
Proof. done. Qed.

Lemma silent_bind {A B} (c : M A) (k : A → M B) :
  silent c → (∀ a, silent (k a)) → silent (bind c k).
Proof.
  intros Hc Hk w. unfold bind. specialize (Hc w).
  destruct (c w) as [w1 [a|e]]; simpl in *; subst w1; [apply Hk|done].
Qed.

Lemma silent_for {A S} (xs : list A) (body : A → S → M S) s :
  (∀ x s, silent (body x s)) → silent (for_ xs body s).
Proof.
  intros Hbody. revert s. induction xs as [|x xs IH]; intros s; simpl.
  - apply silent_ret.
  - apply silent_bind; [apply Hbody|apply IH].
Qed.

Lemma silent_list_comp {A B} (f : A → M B) xs :
  (∀ x, silent (f x)) → silent (list_comp f xs).
Proof.
  intros Hf. induction xs as [|x xs IH]; simpl; [apply silent_ret|].
  apply silent_bind; [apply Hf|]. intros y.
  apply silent_bind; [apply IH|]. intros ys. apply silent_ret.
Qed.

Lemma length_invocation_order n m : length (invocation_order n m) = n * m.
Proof.
  unfold invocation_order.
  assert (∀ k, length (i ← seq k n; (λ j, (i, j)) <$> seq 0 m) = n * m) as Hgen;
    [|apply Hgen].
  induction n as [|n IH]; intros k; [done|].
  cbn [seq]. rewrite bind_cons, length_app, IH, length_fmap, length_seq. lia.
Qed.

Section world.
Context {F : Type} `{Scalar F}.
Implicit Types (d t : gmap string (list F)) (rows : list (list F)).
Implicit Types (data : observations F) (parameters : gmap string F).
Implicit Types (utilities : list (utility F)).

Lemma silent_check_lengths n data : silent (check_lengths n data).
Proof.
  apply silent_for. intros [k vs] []. by destruct (decide (length vs ≠ n)).
Qed.

Lemma silent_compute_probabilities m n d d' : silent (compute_probabilities m n d d').
Proof.
  apply silent_for. intros i pr. apply silent_bind.
  - apply silent_list_comp. intros j.
    apply silent_bind; [apply silent_lift|]. intros l.
    apply silent_bind; [apply silent_lift|]. intros v. apply silent_ret.
  - intros exp_values. apply silent_for. intros [idx exp_value] pr'.
    apply silent_bind; [apply silent_lift|]. intros l. apply silent_ret.
Qed.

Lemma silent_validate_probabilities m n d : silent (validate_probabilities m n d).
Proof.
  apply silent_for. intros i []. apply silent_bind.
  - apply silent_list_comp. intros j.
    apply silent_bind; [apply silent_lift|]. intros l. apply silent_lift.
  - intros ps. cbv zeta. by destruct (sums_to_one (py_sum ps)).
Qed.

(** The invocations of one pass of the loop of line 33. *)
Lemma row_invocations parameters data_point i utilities :
  ∀ k d w w' r,
    for_ (enumerate_from k utilities) (λ '(idx, utility_func) utility_values,
      do l <- lift (getitem utility_values (key "V" idx));
      do v <- invoke i idx utility_func parameters data_point;
      ret (appended utility_values (key "V" idx) l v)) d w = (w', r) →
    stdout w' = stdout w ∧
    ∃ c, c ≤ length utilities ∧
      invocations w' = invocations w ++ ((λ j, (i, j)) <$> seq k c) ∧
      ((∃ d', r = Ok d') → c = length utilities).
Proof.
  induction utilities as [|u utilities IH]; intros k d w w' r; simpl.
  - intros [= <- <-]. split; [done|]. exists 0. by rewrite app_nil_r.
  - unfold bind at 1 2. unfold lift at 1. destruct (getitem d (key "V" k)) as [l|e].
    + unfold bind at 1, invoke at 1. destruct (u parameters data_point) as [v|e].
      * unfold ret at 1. intros Hrun. apply IH in Hrun as (Hout & c & Hc & Hinv & Hok).
        simpl in *. split; [done|]. exists (S c). split; [lia|].
        rewrite Hinv, <-(assoc_L app). split; [done|]. intros Hr. f_equal. by apply Hok.
      * intros [= <- <-]. simpl. split; [done|]. exists 1. split; [lia|].
        split; [done|]. by intros [? ?].
    + intros [= <- <-]. split; [done|]. exists 0. split; [lia|].
      rewrite app_nil_r. split; [done|]. by intros [? ?].
Qed.

(** The invocations of the loop of line 31, from observation [k] on. *)
Lemma evaluate_invocations parameters data utilities len :
  ∀ k d w w' r,
    for_ (seq k len) (λ i utility_values,
      do data_point <- lift (data_point_at data i);
      for_ (enumerate utilities) (λ '(idx, utility_func) utility_values,
        do l <- lift (getitem utility_values (key "V" idx));
        do v <- invoke i idx utility_func parameters data_point;
        ret (appended utility_values (key "V" idx) l v)) utility_values) d w
      = (w', r) →
    stdout w' = stdout w ∧
    ∃ l, invocations w' = invocations w ++ l ∧
      l `prefix_of` (i ← seq k len; (λ j, (i, j)) <$> seq 0 (length utilities)) ∧
      ((∃ d', r = Ok d') →
       l = (i ← seq k len; (λ j, (i, j)) <$> seq 0 (length utilities))).
Proof.
  induction len as [|len IH]; intros k d w w' r.
  - intros [= <- <-]. split; [done|]. exists []. by rewrite app_nil_r.
  - cbn [seq for_]. rewrite bind_cons. unfold bind at 1 2. unfold lift at 1.
    destruct (data_point_at data k) as [data_point|e].
    + destruct (for_ (enumerate utilities) _ d w) as [w1 r1] eqn:Hrow.
      apply row_invocations in Hrow as (Hout1 & c & Hc & Hinv1 & Hok1).
      destruct r1 as [d1|e].
      * rewrite (Hok1 (ex_intro _ d1 eq_refl)) in Hinv1.
        intros (Hout & l & Hinv & Hpre & Hok)%IH.
        split; [congruence|].
        exists (((λ j, (k, j)) <$> seq 0 (length utilities)) ++ l).
        rewrite Hinv, Hinv1, <-(assoc_L app). split; [done|]. split.
        -- by apply prefix_app.
        -- intros Hr. f_equal. by apply Hok.
      * intros [= <- <-]. split; [done|].
        exists ((λ j, (k, j)) <$> seq 0 c). split; [done|]. split; [|by intros [? ?]].
        apply prefix_app_r.
        replace (length utilities) with (c + (length utilities - c)) by lia.
        rewrite seq_app, fmap_app. by apply prefix_app_r.
    + intros [= <- <-]. split; [done|]. exists []. rewrite app_nil_r.
      split; [done|]. split; [apply prefix_nil|by intros [? ?]].
Qed.

(** What the [try] block does to the world. *)
Lemma try_block_world parameters data utilities n w w' r :
  first_length data = Ok n →
  try_block parameters data utilities w = (w', r) →
  stdout w' = stdout w ∧
  ∃ l, invocations w' = invocations w ++ l ∧
    l `prefix_of` invocation_order n (length utilities) ∧
    (Forall (λ kv : string * list F, length kv.2 = n) data →
     (∃ values, eval_all parameters data utilities n = Ok values) →
     l = invocation_order n (length utilities)).
Proof.
  intros Hn. unfold try_block. rewrite (bind_lift_Ok _ _ n) by done.
  unfold bind at 1. pose proof (silent_check_lengths n data w) as Hcheck.
  destruct (check_lengths n data w) as [w0 [[]|e]] eqn:Hlen; simpl in Hcheck; subst w0.
  - cbv zeta. unfold bind at 1.
    destruct (evaluate_utilities parameters data utilities n _ w) as [w1 r1] eqn:Hev.
    pose proof Hev as (Hout & l & Hinv & Hpre & Hok)%evaluate_invocations.
    destruct r1 as [uv|e].
    + unfold bind at 1.
      pose proof (silent_compute_probabilities (length utilities) n uv
        (empty_lists "P" (length utilities)) w1) as Hcompute.
      destruct (compute_probabilities _ _ _ _ w1) as [w2 [pr|e]];
        simpl in Hcompute; subst w2.
      * unfold bind at 1.
        pose proof (silent_validate_probabilities (length utilities) n pr w1) as Hval.
        destruct (validate_probabilities _ _ _ w1) as [w3 [[]|e]];
          simpl in Hval; subst w3.
        -- intros [= <- <-]. split; [done|]. exists l. split_and!; [done..|].
           intros _ _. apply Hok. eauto.
        -- intros [= <- <-]. split; [done|]. exists l. split_and!; [done..|].
           intros _ _. apply Hok. eauto.
      * intros [= <- <-]. split; [done|]. exists l. split_and!; [done..|].
        intros _ _. apply Hok. eauto.
    + intros [= <- <-]. split; [done|]. exists l. split_and!; [done..|].
      intros _ [values Hvalues].
      destruct (evaluate_utilities_rows parameters data utilities n w)
        as (w1' & r1' & Hev' & _ & Hr1').
      rewrite Hvalues in Hr1'. destruct Hr1' as (d' & -> & _). congruence.
  - intros [= <- <-]. split; [done|]. exists []. rewrite app_nil_r.
    split; [done|]. split; [apply prefix_nil|].
    intros Hdata _. rewrite (check_lengths_agree n data w Hdata) in Hlen. done.
Qed.

(** Utility functions are invoked observation by observation and, within an
    observation, alternative by alternative, each pair at most once and none
    out of range: whatever the outcome of the call, the invocations it made
    are an initial part of [invocation_order n m]. *)
Theorem invocations_in_order parameters data utilities n w w' r :
  first_length data = Ok n →
  calculate_probabilities parameters data utilities w = (w', r) →
  ∃ l, invocations w' = invocations w ++ l ∧
    l `prefix_of` invocation_order n (length utilities).
Proof.
  intros Hn. unfold calculate_probabilities.
  destruct (try_block parameters data utilities w) as [w1 r1] eqn:Htry.
  apply (try_block_world _ _ _ n) in Htry as (_ & l & Hinv & Hpre & _); [|done].
  destruct r1; intros [= <- <-]; eauto.
Qed.

(** When the lengths agree and no utility function raises, every utility
    function is invoked exactly once for every observation, in that order:
    [n * m] invocations, also when the call then returns [None] because the
    test of line 46 fails. *)
Theorem invocations_complete parameters data utilities n values w w' r :
  first_length data = Ok n →
  Forall (λ kv : string * list F, length kv.2 = n) data →
  eval_all parameters data utilities n = Ok values →
  calculate_probabilities parameters data utilities w = (w', r) →
  invocations w' = invocations w ++ invocation_order n (length utilities) ∧
  length (invocation_order n (length utilities)) = n * length utilities.
Proof.
  intros Hn Hdata Hvalues. unfold calculate_probabilities.
  destruct (try_block parameters data utilities w) as [w1 r1] eqn:Htry.
  apply (try_block_world _ _ _ n) in Htry as (_ & l & Hinv & _ & Hall); [|done].
  rewrite (Hall Hdata) in Hinv by eauto. intros Hcall. split.
  - by destruct r1; injection Hcall as <- <-.
  - apply length_invocation_order.
Qed.

(** The call prints nothing when it returns a table, and exactly one line,
    which starts with "Error: ", when it returns [None]. *)
Theorem prints_only_errors parameters data utilities w w' r :
  calculate_probabilities parameters data utilities w = (w', r) →
  match r with
  | Some _ => stdout w' = stdout w
  | None => ∃ e, stdout w' = stdout w ++ ["Error: " +:+ exn_str e]
  end.
Proof.
  unfold calculate_probabilities.
  destruct (try_block parameters data utilities w) as [w1 r1] eqn:Htry.
  assert (stdout w1 = stdout w) as Hout.
  { destruct (first_length data) as [n|e] eqn:Hn.
    - by destruct (try_block_world _ _ _ n _ _ _ Hn Htry) as [? _].
    - unfold try_block in Htry. rewrite (bind_lift_Raise _ _ e) in Htry by done.
      by injection Htry as <- _. }
  destruct r1 as [t|e]; intros [= <- <-]; simpl; [done|]. exists e. by rewrite Hout.
Qed.

End world.

(** ** Tables are determined by their rows *)

Section determined.
Context {F : Type} `{Scalar F}.
Implicit Types (d t : gmap string (list F)) (rows : list (list F)).
Implicit Types (data : observations F) (parameters : gmap string F).
Implicit Types (utilities : list (utility F)).

Lemma holds_columns_unique prefix m rows d d' :
  holds_columns prefix m rows d → holds_columns prefix m rows d' → d = d'.
Proof.
  intros [Hdom Hcol] [Hdom' Hcol'].
  assert (∀ j, j < m → d !! key prefix j = d' !! key prefix j) as Hkey.
  { intros j Hj.
    destruct (Hcol j Hj) as (col & -> & Hlen & Hrows).
    destruct (Hcol' j Hj) as (col' & -> & Hlen' & Hrows').
    f_equal. apply list_eq. intros i.
    destruct (rows !! i) as [row|] eqn:Hi.
    - by rewrite (Hrows i row Hi), (Hrows' i row Hi).
    - apply lookup_ge_None in Hi. by rewrite !lookup_ge_None_2 by lia. }
  apply map_eq. intros k.
  destruct (d !! k) as [c|] eqn:Hk.
  - destruct (Hdom k) as (j & Hj & ->); [eauto|]. by rewrite <-Hkey, Hk.
  - destruct (d' !! k) as [c'|] eqn:Hk'; [|done].
    destruct (Hdom' k) as (j & Hj & ->); [eauto|]. by rewrite Hkey, Hk' in Hk.
Qed.

Lemma extends_no_observations m w w' : extends 0 m w w' → w' = w.
Proof.
  intros [Ho (l & Hi & Hl)]. destruct l as [|p l].
  - rewrite app_nil_r in Hi. destruct w, w'; simpl in *; congruence.
  - apply Forall_cons in Hl as [[? _] _]. lia.
Qed.

(** With variables but no observation (every list of [data] is empty) the
    call returns the table of line 28 untouched, an empty list under each of
    [P1 .. Pm]; it invokes and prints nothing. *)
Theorem no_observations parameters data utilities w :
  first_length data = Ok 0 →
  Forall (λ kv : string * list F, length kv.2 = 0) data →
  calculate_probabilities parameters data utilities w
    = (w, Some (empty_lists "P" (length utilities))).
Proof.
  intros Hn Hdata.
  destruct (calculate_probabilities_agree parameters data utilities 0 w Hn Hdata)
    as (w' & ->%extends_no_observations & Hcall).
  change (probability_rows parameters data utilities 0) with (Ok (@nil (list F)))
    in Hcall.
  destruct Hcall as (t & -> & Ht). do 2 f_equal.
  eapply holds_columns_unique; [done|apply holds_columns_empty].
Qed.

(** The table depends on the parameters, the data and the utility functions
    only through the values of the utilities: a second call with as many
    observations and alternatives and the same utility values returns the
    same table. *)
Theorem table_determined_by_utilities parameters data utilities w w' t
    parameters' data' utilities' w2 n :
  calculate_probabilities parameters data utilities w = (w', Some t) →
  first_length data = Ok n → first_length data' = Ok n →
  Forall (λ kv : string * list F, length kv.2 = n) data' →
  length utilities' = length utilities →
  eval_all parameters' data' utilities' n = eval_all parameters data utilities n →
  ∃ w2', calculate_probabilities parameters' data' utilities' w2 = (w2', Some t).
Proof.
  intros (n' & rows & Hn' & _ & Hrows & Ht & _)%calculate_probabilities_Some
    Hn Hn2 Hdata' Hm Hsame.
  assert (n' = n) as -> by congruence.
  destruct (calculate_probabilities_agree parameters' data' utilities' n w2 Hn2 Hdata')
    as (w2' & _ & Hcall).
  unfold probability_rows in Hcall, Hrows. rewrite Hsame, Hrows, Hm in Hcall.
  destruct Hcall as (t' & Hcall & Ht'). exists w2'.
  by rewrite (holds_columns_unique _ _ _ _ _ Ht Ht').
Qed.

End determined.

(** ** Overflow and underflow in binary64 *)

Lemma not_finite_cases (x : float) :
  finite x = false → x = nan ∨ x = infinity ∨ x = neg_infinity.
Proof.
  unfold finite. destruct (float_cases x) as [->|[->|[->|[->|[->|(s & m & e & ->)]]]]];
    auto; discriminate.
Qed.

Lemma add_not_finite (x y : float) :
  finite x = false ∨ finite y = false → finite (x + y) = false.
Proof.
  unfold finite. rewrite add_spec.
  destruct (Prim2SF x) as [[]|[]| |], (Prim2SF y) as [[]|[]| |]; simpl;
    intros [?|?]; done.
Qed.

Lemma div_not_finite (x y : float) :
  finite x = false → finite y = false → finite (x / y) = false.
Proof.
  unfold finite. rewrite div_spec.
  destruct (Prim2SF x) as [[]|[]| |], (Prim2SF y) as [[]|[]| |]; simpl; done.
Qed.

Section overflow.
Variable exp64 : float → float.
Implicit Types (data : observations float) (parameters : gmap string float).
Implicit Types (utilities : list (utility float)).

Lemma py_sum_not_finite (xs : list float) x :
  x ∈ xs → finite x = false → finite (py_sum (H := binary64 exp64) xs) = false.
Proof.
  unfold py_sum. simpl. generalize 0%float.
  induction xs as [|y xs IH]; intros acc Hx Hfin; [by apply elem_of_nil in Hx|].
  simpl. apply elem_of_cons in Hx as [->|Hx].
  - assert (finite (acc + y) = false) as Hacc by (apply add_not_finite; auto).
    clear IH. revert Hacc. generalize (acc + y)%float.
    induction xs as [|z xs IH]; intros a Ha; [done|].
    simpl. apply IH, add_not_finite. auto.
  - by apply IH.
Qed.

Lemma sums_to_one_finite (total : float) :
  sums_to_one (H := binary64 exp64) total = true → finite total = true.
Proof.
  destruct (finite total) eqn:Hfin; [done|].
  apply not_finite_cases in Hfin as [->|[->| ->]]; vm_compute; discriminate.
Qed.

(** Every entry of a returned table is a finite number: neither a nan nor
    an infinity gets past the test of line 46. *)
Theorem returned_entries_finite parameters data utilities w w' t n i j :
  calculate_probabilities (H := binary64 exp64) parameters data utilities w
    = (w', Some t) →
  first_length data = Ok n → i < n → j < length utilities →
  ∃ p, prob t j i = Some p ∧ finite p = true.
Proof.
  intros Hcall Hn Hi Hj.
  destruct (table_entries _ _ _ _ _ _ _ _ Hcall Hn Hi)
    as (data_point & vs & _ & Hvs & Hprob & Hsum%sums_to_one_finite).
  rewrite (Hprob j Hj).
  destruct (lookup_lt_is_Some_2 (softmax_row (H := binary64 exp64) vs) j) as [p Hp].
  { rewrite softmax_row_length. apply result_map_length in Hvs. lia. }
  exists p. split; [done|]. destruct (finite p) eqn:Hfin; [done|].
  rewrite (py_sum_not_finite _ p) in Hsum; [done| |done].
  by eapply list_elem_of_lookup_2.
Qed.

(** When the exponential of some utility overflows (is an infinity, or a
    nan), the call returns [None]: nothing guards line 38, the quotient of
    line 41 is a nan, and the test of line 46 fails. *)
Theorem overflow_returns_None parameters data utilities w w' r n i j u data_point v :
  calculate_probabilities (H := binary64 exp64) parameters data utilities w = (w', r) →
  first_length data = Ok n → i < n → data_point_at data i = Ok data_point →
  utilities !! j = Some u → u parameters data_point = Ok v →
  finite (exp64 v) = false →
  r = None.
Proof.
  intros Hcall Hn Hi Hdp Hu Hv Hexp. destruct r as [t|]; [exfalso|done].
  destruct (table_entries _ _ _ _ _ _ _ _ Hcall Hn Hi)
    as (data_point' & vs & Hdp' & Hvs & _ & Hsum%sums_to_one_finite).
  assert (data_point' = data_point) as -> by congruence.
  destruct (eval_row_lookup _ _ _ _ _ _ Hvs Hu) as (v' & Hj & Hv').
  assert (v' = v) as -> by congruence.
  rewrite (py_sum_not_finite _ (exp64 v / py_sum (H := binary64 exp64) (exp64 <$> vs)))
    in Hsum; [done| |].
  - apply list_elem_of_lookup. exists j. by rewrite softmax_row_lookup, Hj.
  - apply div_not_finite; [done|]. apply (py_sum_not_finite _ (exp64 v)); [|done].
    apply list_elem_of_fmap. exists v. split; [done|]. by eapply list_elem_of_lookup_2.
Qed.

(** One alternative: the test of line 46 passes exactly when the exponential
    is finite and not zero. *)
Lemma alone_passes (e : float) :
  sums_to_one (H := binary64 exp64) (0 + e / (0 + e))%float = finite_nonzero e.
Proof.
  unfold finite_nonzero.
  destruct (float_cases e) as [->|[->|[->|[->|[->|(s & m & ex & He)]]]]];
    try (vm_compute; reflexivity).
  rewrite (add_zero_finite _ _ _ _ He), (div_self_finite _ _ _ _ He), He.
  vm_compute. reflexivity.
Qed.

(** With a single utility function, lengths that agree and no exception, a
    table is returned exactly when the exponential of every utility value is
    finite and not zero: an overflow (utility above 709.78) or an underflow to
    zero (below -745.13) makes the call return [None]. *)
Theorem single_alternative_returns parameters data u n values w :
  first_length data = Ok n →
  Forall (λ kv : string * list float, length kv.2 = n) data →
  eval_all parameters data [u] n = Ok values →
  (∃ w' t, calculate_probabilities (H := binary64 exp64) parameters data [u] w
             = (w', Some t))
  ↔ Forall (λ row, Forall (λ v, finite_nonzero (exp64 v) = true) row) values.
Proof.
  intros Hn Hdata Hvalues.
  destruct (calculate_probabilities_agree (H := binary64 exp64)
    parameters data [u] n w Hn Hdata) as (w1 & _ & Hcall).
  assert (Forall (λ row : list float, ∃ v, row = [v]) values) as Hshape.
  { apply eval_all_shape in Hvalues as [_ Hshape].
    eapply Forall_impl; [done|]. intros [|v [|]] ?; simplify_eq/=. eauto. }
  assert (Forall (λ row, sums_to_one (H := binary64 exp64)
                           (py_sum (H := binary64 exp64) row) = true)
            (softmax_row (H := binary64 exp64) <$> values)
          ↔ Forall (λ row, Forall (λ v, finite_nonzero (exp64 v) = true) row) values)
    as Hiff.
  { rewrite Forall_fmap. clear Hvalues Hcall.
    induction Hshape as [|row rows (v & ->) _ IH]; [split; constructor|].
    rewrite !Forall_cons, IH.
    unfold compose.
    change (sums_to_one (H := binary64 exp64) (py_sum (softmax_row [v])))
      with (sums_to_one (H := binary64 exp64) (0 + exp64 v / (0 + exp64 v))%float).
    rewrite alone_passes.
    split; [intros [? ?]; repeat split; [done|constructor|done]|].
    by intros [[? _] ?]. }
  rewrite <-Hiff. split.
  - intros (w' & t & Hreturned).
    destruct (probability_rows (H := binary64 exp64) parameters data [u] n)
      as [rows|e] eqn:Hrows; [|by rewrite Hreturned in Hcall].
    apply probability_rows_Ok in Hrows as (values' & Hvalues' & -> & Hsum).
    by assert (values' = values) as -> by congruence.
  - intros Hsum.
    assert (probability_rows (H := binary64 exp64) parameters data [u] n
      = Ok (softmax_row (H := binary64 exp64) <$> values)) as Hrows.
    { apply probability_rows_Ok. by exists values. }
    rewrite Hrows in Hcall. destruct Hcall as (t & Hcall & _). eauto.
Qed.

End overflow.

(** ** More of exact arithmetic *)

Section exact_more.
Implicit Types (xs vs : list R).
Implicit Types (data : observations R) (parameters : gmap string R).
Implicit Types (utilities : list (utility R)).

Lemma py_sum_exact_mul xs c :
  py_sum (H := exact) ((λ x, x * c)%R <$> xs) = (py_sum (H := exact) xs * c)%R.
Proof.
  induction xs as [|x xs IH]; [unfold py_sum; simpl; lra|].
  rewrite fmap_cons, !py_sum_exact_cons, IH. lra.
Qed.

Lemma exp_below_sum vs j k a :
  vs !! j = Some a → k ≠ j → k < length vs →
  (exp a < py_sum (H := exact) (exp <$> vs))%R.
Proof.
  intros Hj Hk Hlen. destruct (lookup_lt_is_Some_2 vs k Hlen) as [b Hb].
  assert (exp b <= py_sum (H := exact) (<[j := 0%R]> (exp <$> vs)))%R as Hothers.
  { apply (py_sum_exact_ge _ k).
    - apply Forall_insert; [|lra]. eapply Forall_impl; [apply exp_values_positive|].
      simpl. intros; lra.
    - rewrite list_lookup_insert_ne by done. by rewrite list_lookup_fmap, Hb. }
  rewrite (py_sum_exact_insert _ _ (exp a)) in Hothers
    by (by rewrite list_lookup_fmap, Hj).
  pose proof (exp_pos b). lra.
Qed.

(** In exact arithmetic the call cannot fail on line 46: when the lengths
    agree, there is a utility function and none raises, a table is returned,
    and the probabilities of every observation sum to exactly 1. *)
Theorem exact_simplex parameters data utilities n values w :
  first_length data = Ok n →
  Forall (λ kv : string * list R, length kv.2 = n) data →
  eval_all parameters data utilities n = Ok values → utilities ≠ [] →
  ∃ w' t,
    calculate_probabilities (H := exact) parameters data utilities w = (w', Some t) ∧
    ∀ i, i < n →
      ∃ ps, length ps = length utilities ∧
        (∀ j, j < length utilities → prob t j i = ps !! j) ∧
        py_sum (H := exact) ps = 1%R.
Proof.
  intros Hn Hdata Hvalues Hm.
  destruct (exact_returns parameters data utilities n values w Hn Hdata Hvalues Hm)
    as (w' & t & Hcall).
  exists w', t. split; [done|]. intros i Hi.
  destruct (table_entries _ _ _ _ _ _ _ _ Hcall Hn Hi)
    as (data_point & vs & _ & Hvs & Hprob & _).
  apply result_map_length in Hvs.
  exists (softmax_row (H := exact) vs). split_and!; [|done|].
  - by rewrite softmax_row_length.
  - apply softmax_row_exact_sum. destruct vs, utilities; done.
Qed.

(** In exact arithmetic every probability of a returned table is positive
    and at most 1, and below 1 when there are two alternatives or more. *)
Theorem exact_bounds parameters data utilities w w' t n i j :
  calculate_probabilities (H := exact) parameters data utilities w = (w', Some t) →
  first_length data = Ok n → i < n → j < length utilities →
  ∃ p, prob t j i = Some p ∧ (0 < p <= 1)%R ∧
    (2 ≤ length utilities → (p < 1)%R).
Proof.
  intros Hcall Hn Hi Hj.
  destruct (table_entries _ _ _ _ _ _ _ _ Hcall Hn Hi)
    as (data_point & vs & _ & Hvs & Hprob & _).
  apply result_map_length in Hvs.
  destruct (lookup_lt_is_Some_2 vs j) as [a Ha]; [lia|].
  exists (exp a / py_sum (H := exact) (exp <$> vs))%R.
  split; [by rewrite Hprob, softmax_row_lookup, Ha|].
  assert (vs ≠ []) as Hne by (by destruct vs).
  pose proof (py_sum_exp_positive vs Hne) as Hpos. pose proof (exp_pos a) as Hexp.
  assert (exp a <= py_sum (H := exact) (exp <$> vs))%R as Hle.
  { apply (py_sum_exact_ge _ j); [|by rewrite list_lookup_fmap, Ha].
    eapply Forall_impl; [apply exp_values_positive|]. simpl. intros; lra. }
  split_and!.
  - by apply Rdiv_lt_0_compat.
  - apply (Rmult_le_reg_r (py_sum (H := exact) (exp <$> vs))); [done|].
    replace (exp a / py_sum (H := exact) (exp <$> vs)
             * py_sum (H := exact) (exp <$> vs))%R with (exp a) by (field; lra).
    lra.
  - intros Hm.
    assert (exp a < py_sum (H := exact) (exp <$> vs))%R as Hlt.
    { destruct (decide (j = 0)) as [->|]; [apply (exp_below_sum vs 0 1)
        |apply (exp_below_sum vs j 0)]; (done || lia). }
    apply (Rmult_lt_reg_r (py_sum (H := exact) (exp <$> vs))); [done|].
    replace (exp a / py_sum (H := exact) (exp <$> vs)
             * py_sum (H := exact) (exp <$> vs))%R with (exp a) by (field; lra).
    lra.
Qed.

Lemma softmax_row_shift vs c :
  softmax_row (H := exact) ((λ v, v + c)%R <$> vs) = softmax_row (H := exact) vs.
Proof.
  destruct (decide (vs = [])) as [->|Hne]; [done|].
  pose proof (py_sum_exp_positive vs Hne) as Hpos. pose proof (exp_pos c) as Hc.
  unfold softmax_row. simpl in *.
  assert (exp <$> ((λ v, v + c)%R <$> vs) = (λ x, x * exp c)%R <$> (exp <$> vs)) as ->.
  { rewrite <-!list_fmap_compose. apply list_fmap_ext. intros _ v _. simpl.
    apply exp_plus. }
  rewrite py_sum_exact_mul, <-list_fmap_compose. apply list_fmap_ext.
  intros _ x _. simpl. field. lra.
Qed.

(** In exact arithmetic, adding the same number to the utility of every
    alternative at an observation leaves the probabilities of that
    observation as they are. *)
Theorem exact_shift_invariant parameters data utilities utilities'
    w1 w1' t w2 w2' t' n i c :
  calculate_probabilities (H := exact) parameters data utilities w1 = (w1', Some t) →
  calculate_probabilities (H := exact) parameters data utilities' w2 = (w2', Some t') →
  first_length data = Ok n → i < n →
  (∀ data_point vs,
     data_point_at data i = Ok data_point →
     eval_row parameters utilities data_point = Ok vs →
     eval_row parameters utilities' data_point = Ok ((λ v, v + c)%R <$> vs)) →
  ∀ j, j < length utilities → is_Some (prob t j i) ∧ prob t' j i = prob t j i.
Proof.
  intros Hcall Hcall' Hn Hi Hshift j Hj.
  destruct (table_entries _ _ _ _ _ _ _ _ Hcall Hn Hi)
    as (data_point & vs & Hdp & Hvs & Hprob & _).
  destruct (table_entries _ _ _ _ _ _ _ _ Hcall' Hn Hi)
    as (data_point' & vs' & Hdp' & Hvs' & Hprob' & _).
  assert (data_point' = data_point) as -> by congruence.
  rewrite (Hshift _ _ Hdp Hvs) in Hvs'. injection Hvs' as <-.
  pose proof (result_map_length _ _ _ Hvs) as Hlen.
  pose proof (result_map_length _ _ _ (Hshift _ _ Hdp Hvs)) as Hlen'.
  rewrite length_fmap in Hlen'.
  rewrite Hprob, Hprob' by lia. rewrite softmax_row_shift. split; [|done].
  apply lookup_lt_is_Some_2. rewrite softmax_row_length. lia.
Qed.

End exact_more.

(** * visualize_probabilities *)

(** Runs the function symbolically: every call of matplotlib either returns
    or raises. *)
Ltac visualize_cases backend :=
  cbn [plt_calls printed fst snd];
  repeat match goal with
         | |- context [backend ?h ?c] =>
             destruct (backend h c) as [[]|?]; cbn [plt_calls printed fst snd]
         end.

Ltac visualize_unfold :=
  unfold visualize_probabilities, visualize_try, vbind, vlift, plt, vprint.

Section visualize.
Context {F : Type}.
Variable backend : list (plt_call F) → plt_call F → result unit.
Implicit Types (probabilities : option (gmap string (list F))) (s : screen F).

Lemma subscript_Ok probabilities k p :
  subscript probabilities k = Ok p ↔ ∃ t, probabilities = Some t ∧ t !! k = Some p.
Proof.
  destruct probabilities as [t|]; simpl; [|split; [done|by intros (? & ? & _)]].
  unfold getitem. destruct (t !! k) as [col|] eqn:Hcol.
  - split; [intros [= <-]; eauto|]. intros (? & [= <-] & ?). congruence.
  - split; [done|]. intros (? & [= <-] & ?). congruence.
Qed.

(** When one of the three keys cannot be read. *)
Lemma visualize_missing_key probabilities s :
  (∃ k e, k ∈ ["P1"; "P2"; "P3"] ∧ subscript probabilities k = Raise e) →
  ∃ l e,
    plt_calls (visualize_probabilities backend probabilities s) = plt_calls s ++ l ∧
    Forall (λ c, c ≠ Show ∧ ∀ fname, c ≠ Savefig fname) l ∧
    printed (visualize_probabilities backend probabilities s)
      = printed s ++ ["Visualization Error: " +:+ exn_str e].
Proof.
  intros (k & e & Hk & He).
  destruct (subscript probabilities "P1") as [p1|e1] eqn:H1.
  - destruct (subscript probabilities "P2") as [p2|e2] eqn:H2.
    + destruct (subscript probabilities "P3") as [p3|e3] eqn:H3.
      * exfalso. repeat (apply elem_of_cons in Hk as [->|Hk]; [congruence|]).
        by apply elem_of_nil in Hk.
      * visualize_unfold. rewrite H1, H2, H3.
        visualize_cases backend; rewrite <-?(assoc_L app); eexists _, _;
          (split; [reflexivity|]); (split; [|reflexivity]); repeat constructor; done.
    + visualize_unfold. rewrite H1, H2.
      visualize_cases backend; rewrite <-?(assoc_L app); eexists _, _;
        (split; [reflexivity|]); (split; [|reflexivity]); repeat constructor; done.
  - exists [], e1. visualize_unfold. rewrite H1. simpl. by rewrite app_nil_r.
Qed.

(** The image is saved, and shown, only when the argument is a dict that
    has the keys P1, P2 and P3: a table of fewer than three alternatives, or
    the [None] of a failed computation, is never drawn. *)
Theorem saved_only_with_three_keys probabilities s fname :
  Savefig fname ∈ plt_calls (visualize_probabilities backend probabilities s) →
  Savefig fname ∉ plt_calls s →
  ∃ t p1 p2 p3, probabilities = Some t ∧
    t !! "P1" = Some p1 ∧ t !! "P2" = Some p2 ∧ t !! "P3" = Some p3.
Proof.
  intros Hsaved Hbefore.
  assert (∀ k, k ∈ ["P1"; "P2"; "P3"] → ∃ p, subscript probabilities k = Ok p) as Hkeys.
  { intros k Hk. destruct (subscript probabilities k) as [p|e] eqn:Hp; [eauto|].
    exfalso. destruct (visualize_missing_key probabilities s) as (l & e' & Hl & Hno & _).
    { eauto. }
    rewrite Hl in Hsaved. apply elem_of_app in Hsaved as [?|Hin]; [done|].
    eapply Forall_forall in Hno as [_ Hno]; [|done]. by eapply Hno. }
  destruct (Hkeys "P1") as [p1 (t & -> & H1)%subscript_Ok]; [by repeat constructor|].
  destruct (Hkeys "P2") as [p2 (? & [= <-] & H2)%subscript_Ok]; [by repeat constructor|].
  destruct (Hkeys "P3") as [p3 (? & [= <-] & H3)%subscript_Ok]; [by repeat constructor|].
  by exists t, p1, p2, p3.
Qed.

(** Whatever the argument and whatever matplotlib does, the function prints
    exactly one line: that the visualization was saved, or an error; and it
    is the former only when every call of matplotlib was made and returned. *)
Theorem visualize_prints_one_line probabilities s :
  ∃ line,
    printed (visualize_probabilities backend probabilities s) = printed s ++ [line] ∧
    ((line = saved_line ∧
      ∃ p1 p2 p3, plt_calls (visualize_probabilities backend probabilities s)
                    = plt_calls s ++ full_plot p1 p2 p3) ∨
     ∃ e, line = "Visualization Error: " +:+ exn_str e).
Proof.
  destruct (subscript probabilities "P1") as [p1|e1] eqn:H1;
    [destruct (subscript probabilities "P2") as [p2|e2] eqn:H2;
     [destruct (subscript probabilities "P3") as [p3|e3] eqn:H3|]|].
  - visualize_unfold. rewrite H1, H2, H3.
    visualize_cases backend; eexists; (split; [reflexivity|]); eauto.
    left. split; [done|]. exists p1, p2, p3. by rewrite <-!(assoc_L app).
  - destruct (visualize_missing_key probabilities s) as (l & e & _ & _ & Hout);
      [exists "P3", e3; by repeat constructor|eauto].
  - destruct (visualize_missing_key probabilities s) as (l & e & _ & _ & Hout);
      [exists "P2", e2; by repeat constructor|eauto].
  - destruct (visualize_missing_key probabilities s) as (l & e & _ & _ & Hout);
      [exists "P1", e1; by repeat constructor|eauto].
Qed.

End visualize.

(** ** visualize_probabilities after calculate_probabilities *)

Section visualize_after_calculate.
Context {F : Type} `{Scalar F}.
Variable backend : list (plt_call F) → plt_call F → result unit.
Implicit Types (data : observations F) (parameters : gmap string F).
Implicit Types (utilities : list (utility F)).

(** With fewer than three utility functions, whatever
    [calculate_probabilities] returns cannot be drawn: the function saves and
    shows nothing and prints one "Visualization Error". *)
Theorem visualize_needs_three_alternatives parameters data utilities w w' r s :
  calculate_probabilities parameters data utilities w = (w', r) →
  length utilities < 3 →
  ∃ l e,
    plt_calls (visualize_probabilities backend r s) = plt_calls s ++ l ∧
    Forall (λ c, c ≠ Show ∧ ∀ fname, c ≠ Savefig fname) l ∧
    printed (visualize_probabilities backend r s)
      = printed s ++ ["Visualization Error: " +:+ exn_str e].
Proof.
  intros Hcall Hm. apply visualize_missing_key.
  destruct r as [t|].
  - exists "P3". apply calculate_probabilities_Some in Hcall
      as (n & rows & _ & _ & _ & [Hdom _] & _).
    simpl. unfold getitem. destruct (t !! "P3") as [col|] eqn:Hcol.
    + destruct (Hdom "P3") as (j & Hj & Hkey); [eauto|].
      change "P3" with (key "P" 2) in Hkey. apply key_inj in Hkey. lia.
    + eexists. split; [by repeat constructor|done].
  - exists "P1". eexists. split; [by repeat constructor|done].
Qed.

(** With three utility functions or more, a returned table, and a matplotlib
    that raises nothing: the function draws P1, P2 and P3 (and no further
    alternative) against the observation indices [0 .. n-1], saves the image,
    shows it and prints that it did. *)
Theorem visualize_returned_table parameters data utilities w w' t n s :
  calculate_probabilities parameters data utilities w = (w', Some t) →
  first_length data = Ok n → 3 ≤ length utilities →
  (∀ h c, backend h c = Ok tt) →
  ∃ p1 p2 p3,
    t !! "P1" = Some p1 ∧ t !! "P2" = Some p2 ∧ t !! "P3" = Some p3 ∧
    length p1 = n ∧ length p2 = n ∧ length p3 = n ∧
    visualize_probabilities backend (Some t) s
      = Screen (plt_calls s ++ full_plot p1 p2 p3) (printed s ++ [saved_line]).
Proof.
  intros Hcall Hn Hm Hbackend.
  destruct (returned_column _ _ _ _ _ _ _ 0 Hcall Hn) as (p1 & H1 & Hlen1); [lia|].
  destruct (returned_column _ _ _ _ _ _ _ 1 Hcall Hn) as (p2 & H2 & Hlen2); [lia|].
  destruct (returned_column _ _ _ _ _ _ _ 2 Hcall Hn) as (p3 & H3 & Hlen3); [lia|].
  change (key "P" 0) with "P1" in H1. change (key "P" 1) with "P2" in H2.
  change (key "P" 2) with "P3" in H3.
  exists p1, p2, p3. split_and!; [done..|].
  visualize_unfold. simpl. unfold getitem. rewrite H1, H2, H3, !Hbackend.
  simpl. by rewrite <-!(assoc_L app).
Qed.

(** Whatever matplotlib does, every [plot] that is made for what
    [calculate_probabilities] returned has as many x values as y values, one
    per observation. *)
Theorem plots_have_matching_lengths parameters data utilities w w' r n s :
  calculate_probabilities parameters data utilities w = (w', r) →
  first_length data = Ok n →
  ∃ l, plt_calls (visualize_probabilities backend r s) = plt_calls s ++ l ∧
    Forall (λ c, ∀ xs ys label marker,
              c = Plot xs ys label marker → length xs = n ∧ length ys = n) l.
Proof.
  intros Hcall Hn.
  assert (∀ k p, subscript r k = Ok p → length p = n) as Hlen.
  { intros k p Hp. destruct r as [t|]; [|done]. simpl in Hp. unfold getitem in Hp.
    destruct (t !! k) as [col|] eqn:Hcol; [|done]. injection Hp as ->.
    pose proof Hcall as (n' & rows & _ & _ & _ & [Hdom _] & _)%calculate_probabilities_Some.
    destruct (Hdom k) as (j & Hj & ->); [eauto|].
    destruct (returned_column _ _ _ _ _ _ _ j Hcall Hn Hj) as (col' & Hcol' & ?).
    congruence. }
  visualize_unfold.
  destruct (subscript r "P1") as [p1|e1] eqn:H1; cbn [plt_calls printed fst snd];
    [|exists []; by rewrite app_nil_r].
  pose proof (Hlen _ _ H1) as Hlen1.
  destruct (subscript r "P2") as [p2|e2] eqn:H2;
    [pose proof (Hlen _ _ H2) as Hlen2;
     destruct (subscript r "P3") as [p3|e3] eqn:H3;
       [pose proof (Hlen _ _ H3) as Hlen3|]|];
    visualize_cases backend; rewrite <-?(assoc_L app); eexists;
    (split; [reflexivity|]); cbn [app];
    repeat (apply Forall_cons; split;
            [intros xs ys label marker Heq; try discriminate Heq;
             injection Heq as <- <- _ _; by rewrite ?length_seq|]);
    apply Forall_nil_2.
Qed.

End visualize_after_calculate.

(** * The further properties on concrete inputs *)

Lemma invocations_in_order_witness :
  ∃ w' r,
    calculate_probabilities (H := binary64_model) ∅ three_points
      [variable_utility "X1"; variable_utility "X9"] world0 = (w', r) ∧
    ∃ l, invocations w' = invocations world0 ++ l ∧
      l `prefix_of` invocation_order 3 2.
Proof.
  do 2 eexists. split; [vm_compute; reflexivity|].
  eapply (invocations_in_order (H := binary64_model) ∅ three_points
    [variable_utility "X1"; variable_utility "X9"] 3 world0);
    [reflexivity|vm_compute; reflexivity].
Defined.

Lemma invocations_complete_witness :
  ∃ w' r,
    calculate_probabilities (H := binary64_model) ∅ two_points
      [variable_utility "X1"; constant_utility 0%float] world0 = (w', r) ∧
    invocations w' = invocations world0 ++ invocation_order 2 2 ∧
    length (invocation_order 2 2) = 2 * 2.
Proof.
  do 2 eexists. split; [vm_compute; reflexivity|].
  eapply (invocations_complete (H := binary64_model) ∅ two_points
    [variable_utility "X1"; constant_utility 0%float] 2 _ world0);
    [reflexivity|by repeat constructor|vm_compute; reflexivity|vm_compute; reflexivity].
Defined.

Lemma prints_only_errors_witness :
  ∃ w' e,
    calculate_probabilities (H := binary64_model) ∅ (one_point 1000)
      [variable_utility "X1"] world0 = (w', None) ∧
    stdout w' = stdout world0 ++ ["Error: " +:+ exn_str e].
Proof.
  destruct (prints_only_errors (H := binary64_model) ∅ (one_point 1000)
    [variable_utility "X1"] world0
    (World ["Error: Probabilities do not sum to 1 for data point 0."] [(0, 0)]) None)
    as [e He]; [vm_compute; reflexivity|].
  eexists _, e. split; [vm_compute; reflexivity|exact He].
Defined.

Lemma no_observations_witness :
  calculate_probabilities (H := binary64_model) ∅ no_points
    [variable_utility "X1"; variable_utility "X2"] world0
  = (world0, Some (empty_lists "P" 2)).
Proof.
  apply (no_observations (H := binary64_model) ∅ no_points
    [variable_utility "X1"; variable_utility "X2"] world0);
    [reflexivity|by repeat constructor].
Defined.

Lemma table_determined_by_utilities_witness :
  ∃ w' t w2',
    calculate_probabilities (H := binary64_model) ∅ two_points
      [variable_utility "X1"; constant_utility 0%float] world0 = (w', Some t) ∧
    calculate_probabilities (H := binary64_model) ∅ [("Z", [0; 1])]%float
      [variable_utility "Z"; constant_utility 0%float] world0 = (w2', Some t).
Proof.
  do 2 eexists.
  assert (calculate_probabilities (H := binary64_model) ∅ two_points
      [variable_utility "X1"; constant_utility 0%float] world0 = (_, Some _)) as Hcall
    by (vm_compute; reflexivity).
  destruct (table_determined_by_utilities (H := binary64_model) _ _ _ _ _ _
    ∅ [("Z", [0; 1])]%float [variable_utility "Z"; constant_utility 0%float]
    world0 2 Hcall) as [w2' Hcall2];
    [reflexivity|reflexivity|by repeat constructor|reflexivity|vm_compute; reflexivity|].
  exists w2'. split; [exact Hcall|exact Hcall2].
Defined.

Lemma returned_entries_finite_witness :
  ∃ w' t,
    calculate_probabilities (H := binary64_model) ∅ two_points
      [variable_utility "X1"; constant_utility 0%float] world0 = (w', Some t) ∧
    ∃ p, prob t 1 1 = Some p ∧ finite p = true.
Proof.
  do 2 eexists. split; [vm_compute; reflexivity|].
  eapply (returned_entries_finite exp_model ∅ two_points
    [variable_utility "X1"; constant_utility 0%float] world0 _ _ 2 1 1);
    [vm_compute; reflexivity|reflexivity|lia|simpl; lia].
Defined.

Lemma overflow_returns_None_witness :
  ∃ w' r,
    calculate_probabilities (H := binary64_model) ∅ (one_point 1000)
      [constant_utility 0%float; variable_utility "X1"] world0 = (w', r) ∧
    r = None.
Proof.
  do 2 eexists. split; [vm_compute; reflexivity|].
  eapply (overflow_returns_None exp_model ∅ (one_point 1000)
    [constant_utility 0%float; variable_utility "X1"] world0 _ _ 1 0 1
    (variable_utility "X1") {[ "X1" := 1000%float ]} 1000%float);
    [vm_compute; reflexivity|reflexivity|lia|vm_compute; reflexivity
    |reflexivity|vm_compute; reflexivity|vm_compute; reflexivity].
Defined.

Lemma single_alternative_returns_witness :
  (∃ w' t, calculate_probabilities (H := binary64_model) ∅ two_points
             [variable_utility "X1"] world0 = (w', Some t))
  ↔ Forall (λ row, Forall (λ v, finite_nonzero (exp_model v) = true) row)
      [[0]; [1]]%float.
Proof.
  apply (single_alternative_returns exp_model ∅ two_points (variable_utility "X1") 2
    [[0]; [1]]%float world0); [reflexivity|by repeat constructor|vm_compute; reflexivity].
Defined.

Lemma exact_simplex_witness :
  ∃ w' t,
    calculate_probabilities (H := exact) ∅ one_point_exact
      [constant_utility 1%R; constant_utility 0%R] world0 = (w', Some t) ∧
    ∀ i, i < 1 →
      ∃ ps, length ps = 2 ∧ (∀ j, j < 2 → prob t j i = ps !! j) ∧
        py_sum (H := exact) ps = 1%R.
Proof.
  apply (exact_simplex ∅ one_point_exact
    [constant_utility 1%R; constant_utility 0%R] 1 [[1%R; 0%R]] world0);
    [reflexivity|by repeat constructor|reflexivity|done].
Defined.

Lemma exact_bounds_witness :
  ∃ w' t,
    calculate_probabilities (H := exact) ∅ one_point_exact
      [constant_utility 1%R; constant_utility 0%R] world0 = (w', Some t) ∧
    ∃ p, prob t 0 0 = Some p ∧ (0 < p <= 1)%R ∧ (2 ≤ 2 → (p < 1)%R).
Proof.
  destruct (exact_returns ∅ one_point_exact
    [constant_utility 1%R; constant_utility 0%R] 1 [[1%R; 0%R]] world0)
    as (w' & t & Hcall); [reflexivity|by repeat constructor|reflexivity|done|].
  exists w', t. split; [exact Hcall|].
  apply (exact_bounds ∅ one_point_exact _ _ _ _ 1 0 0 Hcall); [reflexivity|lia|simpl; lia].
Defined.

Lemma exact_shift_invariant_witness :
  ∃ w1' t w2' t',
    calculate_probabilities (H := exact) ∅ one_point_exact
      [constant_utility 1%R; constant_utility 0%R] world0 = (w1', Some t) ∧
    calculate_probabilities (H := exact) ∅ one_point_exact
      [constant_utility (1 + 5)%R; constant_utility (0 + 5)%R] world0 = (w2', Some t') ∧
    ∀ j, j < 2 → is_Some (prob t j 0) ∧ prob t' j 0 = prob t j 0.
Proof.
  destruct (exact_returns ∅ one_point_exact
    [constant_utility 1%R; constant_utility 0%R] 1 [[1%R; 0%R]] world0)
    as (w1' & t & Hcall); [reflexivity|by repeat constructor|reflexivity|done|].
  destruct (exact_returns ∅ one_point_exact
    [constant_utility (1 + 5)%R; constant_utility (0 + 5)%R] 1
    [[(1 + 5)%R; (0 + 5)%R]] world0)
    as (w2' & t' & Hcall'); [reflexivity|by repeat constructor|reflexivity|done|].
  exists w1', t, w2', t'. split; [exact Hcall|]. split; [exact Hcall'|].
  apply (exact_shift_invariant ∅ one_point_exact _ _ _ _ _ _ _ _ 1 0 5%R Hcall Hcall');
    [reflexivity|lia|].
  intros data_point vs _ [= <-]. reflexivity.
Defined.

Lemma saved_only_with_three_keys_witness :
  ∃ t p1 p2 p3, Some sample_table = Some t ∧
    t !! "P1" = Some p1 ∧ t !! "P2" = Some p2 ∧ t !! "P3" = Some p3.
Proof.
  apply (saved_only_with_three_keys obliging (Some sample_table) screen0
    "probability_visualization.png").
  - vm_compute. repeat constructor.
  - apply not_elem_of_nil.
Defined.

Lemma visualize_needs_three_alternatives_witness :
  ∃ w' r,
    calculate_probabilities (H := binary64_model) ∅ two_points
      [variable_utility "X1"; constant_utility 0%float] world0 = (w', r) ∧
    ∃ l e,
      plt_calls (visualize_probabilities read_only r screen0) = plt_calls screen0 ++ l ∧
      Forall (λ c, c ≠ Show ∧ ∀ fname, c ≠ Savefig fname) l ∧
      printed (visualize_probabilities read_only r screen0)
        = printed screen0 ++ ["Visualization Error: " +:+ exn_str e].
Proof.
  do 2 eexists. split; [vm_compute; reflexivity|].
  eapply (visualize_needs_three_alternatives (H := binary64_model) read_only ∅ two_points
    [variable_utility "X1"; constant_utility 0%float] world0);
    [vm_compute; reflexivity|simpl; lia].
Defined.

Lemma visualize_returned_table_witness :
  ∃ w' t,
    calculate_probabilities (H := binary64_model) ∅ two_points
      [variable_utility "X1"; constant_utility 0%float; constant_utility 0%float]
      world0 = (w', Some t) ∧
    ∃ p1 p2 p3,
      t !! "P1" = Some p1 ∧ t !! "P2" = Some p2 ∧ t !! "P3" = Some p3 ∧
      length p1 = 2 ∧ length p2 = 2 ∧ length p3 = 2 ∧
      visualize_probabilities obliging (Some t) screen0
        = Screen (plt_calls screen0 ++ full_plot p1 p2 p3)
            (printed screen0 ++ [saved_line]).
Proof.
  do 2 eexists. split; [vm_compute; reflexivity|].
  eapply (visualize_returned_table (H := binary64_model) obliging ∅ two_points
    [variable_utility "X1"; constant_utility 0%float; constant_utility 0%float]
    world0); [vm_compute; reflexivity|reflexivity|simpl; lia|done].
Defined.

Lemma plots_have_matching_lengths_witness :
  ∃ w' r,
    calculate_probabilities (H := binary64_model) ∅ two_points
      [variable_utility "X1"; constant_utility 0%float; constant_utility 0%float]
      world0 = (w', r) ∧
    ∃ l, plt_calls (visualize_probabilities read_only r screen0)
           = plt_calls screen0 ++ l ∧
      Forall (λ c, ∀ xs ys label marker,
                c = Plot xs ys label marker → length xs = 2 ∧ length ys = 2) l.
Proof.
  do 2 eexists. split; [vm_compute; reflexivity|].
  eapply (plots_have_matching_lengths (H := binary64_model) read_only ∅ two_points
    [variable_utility "X1"; constant_utility 0%float; constant_utility 0%float]
    world0); [vm_compute; reflexivity|reflexivity].
Defined.
